(** * unity-lsp: the LSP gateway and its OmniSharp bridge (main.go)

    A shallow embedding of [main.go].  The program relays completion
    requests from an editor (JSON-RPC over stdin/stdout) to an OmniSharp
    backend (HTTP) and translates the answers.

    - Go strings and [[]byte] are byte sequences: both are [string] here.
    - A Go pointer that may be nil is an [option]; dereferencing [None]
      panics.
    - A Go [(value, error)] result is a pair whose second component is an
      [option error] ([None] is the nil error).
    - The effects of the program (HTTP round trips, closing a response
      body, writing a response to the stream, panicking) are threaded
      through the monad [M] over a trace of events.
    - The libraries the program calls (encoding/json, net/http, jsonrpc2,
      the protocol package) are not part of the repository: their types are
      declared below as far as the program touches them, and what they
      compute is a field of the environment [Env]. *)

From Stdlib Require Import ZArith Ascii String List Lia DecimalString.
From stdpp Require Import base option list gmap strings fin_maps.

Definition bytes := string.

(** ** Errors and panics *)

(** Go's [error] is an interface value.  The model records which library
    call produced it and its text. *)
Inductive Origin :=
| FromMarshal      (* json.Marshal *)
| FromNewRequest   (* http.NewRequest *)
| FromDo           (* Do of http.Client *)
| FromReadAll      (* ioutil.ReadAll *)
| FromUnmarshal    (* json.Unmarshal of the backend's answer *)
| FromParams       (* decoding the parameters of an incoming request *)
| FromStream.      (* writing to the jsonrpc2 stream *)

Record error := Error { origin : Origin; text : string }.

Inductive Panic :=
| NilDereference.  (* invalid memory address or nil pointer dereference *)

(** ** go.lsp.dev/protocol, as far as main.go uses it *)

Module protocol.

(** [CompletionItemKind] is a numeric type; the protocol defines the
    values 1 to 25, and 0 is the zero value of the Go type. *)
Definition CompletionItemKind := Z.
Definition CompletionItemKindText : CompletionItemKind := 1%Z.
Definition CompletionItemKindMethod : CompletionItemKind := 2%Z.
Definition CompletionItemKindFunction : CompletionItemKind := 3%Z.
Definition CompletionItemKindConstructor : CompletionItemKind := 4%Z.
Definition CompletionItemKindField : CompletionItemKind := 5%Z.
Definition CompletionItemKindVariable : CompletionItemKind := 6%Z.
Definition CompletionItemKindClass : CompletionItemKind := 7%Z.
Definition CompletionItemKindInterface : CompletionItemKind := 8%Z.
Definition CompletionItemKindModule : CompletionItemKind := 9%Z.
Definition CompletionItemKindProperty : CompletionItemKind := 10%Z.

(** A kind is defined when it is one of the protocol's 25 values. *)
Definition defined_kind (k : CompletionItemKind) : Prop := (1 <= k <= 25)%Z.

Inductive TextDocumentSyncKind :=
| TextDocumentSyncKindNone
| TextDocumentSyncKindFull
| TextDocumentSyncKindIncremental.

Definition MethodInitialize : string := "initialize".
Definition MethodTextDocumentCompletion : string := "textDocument/completion".

(** The fields main.go sets; every other field of the Go struct keeps
    its zero value. *)
Record CompletionItem := {
  Label : string;
  Detail : string;
  Kind : CompletionItemKind;
  InsertText : string
}.

Definition CompletionItem_zero : CompletionItem :=
  {| Label := ""; Detail := ""; Kind := 0%Z; InsertText := "" |}.

Record CompletionList := {
  IsIncomplete : bool;
  Items : list CompletionItem
}.

Record CompletionOptions := { TriggerCharacters : list string }.

Record TextDocumentSyncOptions := {
  Change : TextDocumentSyncKind;
  OpenClose : bool
}.

Record ServerCapabilities := {
  CompletionProvider : option CompletionOptions;
  TextDocumentSync : option TextDocumentSyncOptions
}.

Record InitializeResult := { Capabilities : ServerCapabilities }.

(** Parameters of [initialize]; the handler reads none of them. *)
Record InitializeParams := {
  ProcessID : Z;
  RootURI : string
}.

Record Position := { Line : Z; Character : Z }.   (* uint32 in Go *)

Record TextDocumentIdentifier := { URI : string }.

Record CompletionParams := {
  TextDocument : TextDocumentIdentifier;
  Position_ : Position
}.

End protocol.

(** ** net/http and io/ioutil, as far as main.go uses them *)

Module http.

Record Request := {
  Method : string;
  URL : string;
  Header : gmap string string;
  ReqBody : bytes
}.

(** A response body is a stream: it yields [content] and then ends, with
    end-of-file ([failure = None]) or with a read error. *)
Record ReadCloser := { content : bytes; failure : option string }.

Record Response := { StatusCode : Z; Body : ReadCloser }.

(** [http.Client{}]: the zero client. *)
Inductive Client := DefaultClient.

(** [req.Header.Set(key, value)] *)
Definition Header_Set (req : Request) (key value : string) : Request :=
  {| Method := Method req; URL := URL req;
     Header := <[key := value]> (Header req); ReqBody := ReqBody req |}.

End http.

Module ioutil.

(** [ioutil.ReadAll] reads until end-of-file or an error and returns what
    it read together with the error (nil at end-of-file). *)
Definition ReadAll (r : http.ReadCloser) : bytes * option error :=
  (http.content r, Error FromReadAll <$> http.failure r).

End ioutil.

(** ** go.lsp.dev/jsonrpc2, as far as main.go uses it *)

(** What a handler hands to the replier as the [interface{}] result. *)
Inductive Result :=
| ResultInitialize (r : option protocol.InitializeResult)
| ResultCompletion (r : option protocol.CompletionList).

Module jsonrpc2.

(** An incoming message: a call carries an id, a notification does not. *)
Record Request := {
  ID : option Z;
  Method : string;
  Params : bytes
}.

(** An outgoing response to the call [RespID]. *)
Record Response := {
  RespID : Z;
  RespResult : Result;
  RespErr : option error
}.

Inductive Conn := TheConn.

End jsonrpc2.

(** ** Effects *)

Inductive Event :=
| EvRoundTrip (req : http.Request)     (* the HTTP client sent [req] *)
| EvBodyClose                          (* a response body was closed *)
| EvWrite (m : jsonrpc2.Response).     (* a response was written to the stream *)

(** The trace of a run, oldest event first. *)
Definition Trace := list Event.

Inductive Outcome (A : Type) :=
| Returned (a : A)
| Panicked (p : Panic).
Arguments Returned {A} a.
Arguments Panicked {A} p.

Definition M (A : Type) : Type := Trace → Outcome A * Trace.

#[global] Instance M_ret : MRet M := λ A (a : A) w, (Returned a, w).

#[global] Instance M_bind : MBind M := λ A B (f : A → M B) (m : M A) w,
  match m w with
  | (Returned a, w') => f a w'
  | (Panicked p, w') => (Panicked p, w')
  end.

Definition panic {A} (p : Panic) : M A := λ w, (Panicked p, w).

Definition emit (e : Event) : M unit := λ w, (Returned tt, w ++ [e]).

(** Reading through a pointer. *)
Definition deref {A} (p : option A) : M A :=
  match p with
  | Some a => mret a
  | None => panic NilDereference
  end.

(** The http requests a trace contains, in order. *)
Definition round_trips (w : Trace) : list http.Request :=
  omap (λ e, match e with EvRoundTrip r => Some r | _ => None end) w.

(** ** The backend's candidate and the values put into the request map *)

(** The anonymous struct of [handleCompletion]'s [omnisharpResponse]. *)
Module Candidate.
Record t := {
  CompletionText : string;
  DisplayText : string;
  Documentation : string;
  Kind : string
}.
Definition zero : t :=
  {| CompletionText := ""; DisplayText := ""; Documentation := ""; Kind := "" |}.
End Candidate.

(** The dynamic values main.go stores in the [interface{}] values of its
    request map. *)
Inductive iface :=
| IUint32 (n : Z)
| IString (s : string).

Definition Context := unit.
Definition context_Background : Context := tt.

Definition Replier := Context → Result → option error → M (option error).

(** ** The environment: what the libraries and the outside world do *)

Record Env := {
  (** [json.Marshal] of a [map[string]interface{}]: the serialization, or
      the text of the error. *)
  json_Marshal : gmap string iface → string + bytes;
  (** [http.NewRequest] fails when the URL does not parse: the text of the
      error for such a URL. *)
  url_Parse : string → option string;
  (** One HTTP round trip: the response, or the text of the transport
      error.  It may depend on what happened before. *)
  RoundTrip : Trace → http.Request → string + http.Response;
  (** [json.Unmarshal] into a slice of candidates: what the slice holds
      afterwards and the text of the error, if any. *)
  json_Unmarshal : bytes → list Candidate.t * option string;
  (** [req.Params().UnmarshalTo(&params)] at the two parameter types. *)
  UnmarshalTo_InitializeParams : bytes → string + protocol.InitializeParams;
  UnmarshalTo_CompletionParams : bytes → string + protocol.CompletionParams;
  (** [uri.SpanURI().Filename()] *)
  Filename : string → string;
  (** Writing a response to the stream: the text of the error, if any. *)
  stream_Write : Trace → jsonrpc2.Response → option string;
  (** Whether the connection closes its stream when a handler returns an
      error. *)
  handler_error_is_fatal : bool
}.

Section Program.

Variable env : Env.

(** [http.NewRequest(method, url, body)] *)
Definition http_NewRequest (method url : string) (body : bytes)
  : http.Request * option error :=
  match url_Parse env url with
  | Some msg =>
      ({| http.Method := ""; http.URL := ""; http.Header := ∅; http.ReqBody := "" |},
       Some (Error FromNewRequest msg))
  | None =>
      ({| http.Method := method; http.URL := url; http.Header := ∅;
          http.ReqBody := body |}, None)
  end.

(** One round trip of the HTTP client. *)
Definition round_trip (req : http.Request)
  : M (option http.Response * option error) :=
  λ w, match RoundTrip env w req with
       | inl msg => (Returned (None, Some (Error FromDo msg)), w ++ [EvRoundTrip req])
       | inr resp => (Returned (Some resp, None), w ++ [EvRoundTrip req])
       end.

(** [(c *http.Client).Do(req)]: a nil client panics; otherwise one round
    trip is made. *)
Definition http_Do (c : option http.Client) (req : http.Request)
  : M (option http.Response * option error) :=
  _ ← deref c;
  round_trip req.

(** *** main.go *)

Record OmniSharpClient := {
  baseURL : string;
  client : option http.Client
}.

Record Server := {
  conn : option jsonrpc2.Conn;
  client_ : option unit;               (* protocol.Client, never used *)
  omnisharp : option OmniSharpClient
}.

Definition NewOmniSharpClient (baseURL : string) : OmniSharpClient :=
  {| baseURL := baseURL; client := Some http.DefaultClient |}.

(** [func (o *OmniSharpClient) SendRequest(endpoint, request)]; the
    receiver is a pointer and may be nil, and [request] is the
    [map[string]interface{}] the program passes. *)
Definition SendRequest (o : option OmniSharpClient) (endpoint : string)
    (request : gmap string iface) : M (bytes * option error) :=
  match json_Marshal env request with
  | inl msg => mret ("", Some (Error FromMarshal msg))
  | inr jsonData =>
      o' ← deref o;
      match http_NewRequest "POST" (baseURL o' +:+ endpoint) jsonData with
      | (_, Some err) => mret ("", Some err)
      | (req, None) =>
          let req := http.Header_Set req "Content-Type" "application/json" in
          r ← http_Do (client o') req;
          match r with
          | (_, Some err) => mret ("", Some err)
          | (resp, None) =>
              resp ← deref resp;
              (* defer resp.Body.Close() runs after ReadAll *)
              let result := ioutil.ReadAll (http.Body resp) in
              _ ← emit EvBodyClose;
              mret result
          end
      end
  end.

(** [convertKind] *)
Definition convertKind (omnisharpKind : string) : protocol.CompletionItemKind :=
  if String.eqb omnisharpKind "Method" then protocol.CompletionItemKindMethod
  else if String.eqb omnisharpKind "Property" then protocol.CompletionItemKindProperty
  else if String.eqb omnisharpKind "Field" then protocol.CompletionItemKindField
  else if String.eqb omnisharpKind "Class" then protocol.CompletionItemKindClass
  else protocol.CompletionItemKindText.

(** The item the loop of [handleCompletion] builds from a candidate. *)
Definition item_of (item : Candidate.t) : protocol.CompletionItem :=
  {| protocol.Label := Candidate.DisplayText item;
     protocol.Detail := Candidate.Documentation item;
     protocol.Kind := convertKind (Candidate.Kind item);
     protocol.InsertText := Candidate.CompletionText item |}.

(** [for i, item := range omnisharpResponse { items[i] = ... }], started
    at index [i]. *)
Fixpoint fill_items (i : nat) (omnisharpResponse : list Candidate.t)
    (items : list protocol.CompletionItem) : list protocol.CompletionItem :=
  match omnisharpResponse with
  | [] => items
  | item :: rest => fill_items (S i) rest (<[i := item_of item]> items)
  end.

(** The request map [handleCompletion] builds from its parameters. *)
Definition omnisharpRequest (params : protocol.CompletionParams) : gmap string iface :=
  <["Line" := IUint32 (protocol.Line (protocol.Position_ params))]>
  (<["Column" := IUint32 (protocol.Character (protocol.Position_ params))]>
  (<["FileName" := IString (Filename env (protocol.URI (protocol.TextDocument params)))]>
   ∅)).

(** [handleCompletion] *)
Definition handleCompletion (s : Server) (params : protocol.CompletionParams)
  : M (option protocol.CompletionList * option error) :=
  r ← SendRequest (omnisharp s) "/autocomplete" (omnisharpRequest params);
  match r with
  | (_, Some err) => mret (None, Some err)
  | (response, None) =>
      match json_Unmarshal env response with
      | (_, Some msg) => mret (None, Some (Error FromUnmarshal msg))
      | (omnisharpResponse, None) =>
          let items := replicate (length omnisharpResponse) protocol.CompletionItem_zero in
          let items := fill_items 0 omnisharpResponse items in
          mret (Some {| protocol.IsIncomplete := false; protocol.Items := items |}, None)
      end
  end.

(** [handleInitialize] *)
Definition handleInitialize (s : Server) (params : protocol.InitializeParams)
  : option protocol.InitializeResult * option error :=
  (Some {| protocol.Capabilities :=
             {| protocol.CompletionProvider :=
                  Some {| protocol.TriggerCharacters := ["."; " "] |};
                protocol.TextDocumentSync :=
                  Some {| protocol.Change := protocol.TextDocumentSyncKindFull;
                          protocol.OpenClose := true |} |} |},
   None).

(** [handle] *)
Definition handle (s : Server) (ctx : Context) (reply : Replier)
    (req : jsonrpc2.Request) : M (option error) :=
  if String.eqb (jsonrpc2.Method req) protocol.MethodInitialize then
    match UnmarshalTo_InitializeParams env (jsonrpc2.Params req) with
    | inl msg => mret (Some (Error FromParams msg))
    | inr params =>
        let '(result, err) := handleInitialize s params in
        reply ctx (ResultInitialize result) err
    end
  else if String.eqb (jsonrpc2.Method req) protocol.MethodTextDocumentCompletion then
    match UnmarshalTo_CompletionParams env (jsonrpc2.Params req) with
    | inl msg => mret (Some (Error FromParams msg))
    | inr params =>
        r ← handleCompletion s params;
        reply ctx (ResultCompletion r.1) r.2
    end
  else mret None.

(** *** The connection

    [Start] hands [handle] to the connection of jsonrpc2, which is
    library code. *)

(** The replier the connection gives a handler for [req]: a call gets a
    response carrying the result and the error, a notification gets
    nothing. *)
Definition conn_replier (req : jsonrpc2.Request) : Replier :=
  λ ctx result err w,
    match jsonrpc2.ID req with
    | None => (Returned None, w)
    | Some id =>
        let resp := {| jsonrpc2.RespID := id; jsonrpc2.RespResult := result;
                       jsonrpc2.RespErr := err |} in
        match stream_Write env w resp with
        | Some msg => (Returned (Some (Error FromStream msg)), w)
        | None => (Returned None, w ++ [EvWrite resp])
        end
    end.

(** Modelled from the spec: the receive loop of [conn.Go], which is
    library code (section 4.1, [start()]): for each incoming message the
    matching handler is invoked with a replier, until the peer closes the
    stream or a local error ends it.  [incoming] is what the peer sends
    before it closes the stream; whether an error returned by a handler
    ends the loop is left to [handler_error_is_fatal]. *)
Fixpoint conn_Go (ctx : Context)
    (handler : Context → Replier → jsonrpc2.Request → M (option error))
    (incoming : list jsonrpc2.Request) : M (option error) :=
  match incoming with
  | [] => mret None
  | req :: rest =>
      err ← handler ctx (conn_replier req) req;
      match err with
      | Some e =>
          if handler_error_is_fatal env then mret (Some e)
          else conn_Go ctx handler rest
      | None => conn_Go ctx handler rest
      end
  end.

(** [Start]: the server [s] with its connection set, and what the
    connection ends with. *)
Definition Start (s : Server) (incoming : list jsonrpc2.Request)
  : Server * M (option error) :=
  let conn := jsonrpc2.TheConn in
  let s := {| conn := Some conn; client_ := client_ s; omnisharp := omnisharp s |} in
  (s, conn_Go context_Background (handle s) incoming).

(** The server [main] builds: [&Server{}]. *)
Definition main_server : Server :=
  {| conn := None; client_ := None; omnisharp := None |}.

Inductive Exit :=
| ExitStatus (status : Z)
| Crash (p : Panic).

(** [main], on the messages the peer sends. *)
Definition main (incoming : list jsonrpc2.Request) : Exit * Trace :=
  let server := main_server in
  match (Start server incoming).2 [] with
  | (Returned None, w) => (ExitStatus 0, w)
  | (Returned (Some _), w) => (ExitStatus 1, w)    (* log.Fatal(err) *)
  | (Panicked p, w) => (Crash p, w)
  end.

End Program.


(** ** The error taxonomy and the reverse kind mapping of the specification *)

Inductive ErrorClass := TransportError | DecodeError | StreamError.

(** Modelled from the spec: the taxonomy of section 7, which the program
    has no type for.  A [TransportError] is a failure to reach the backend
    (serialising the request, building it, the round trip, reading the
    body; section 4.2); a [DecodeError] is a malformed backend response or
    malformed request parameters; a failure of the stream itself is
    neither. *)
Definition classify (e : error) : ErrorClass :=
  match origin e with
  | FromMarshal | FromNewRequest | FromDo | FromReadAll => TransportError
  | FromUnmarshal | FromParams => DecodeError
  | FromStream => StreamError
  end.

(** The kind tags of the mapping table that have an image of their own. *)
Definition kind_tags : list string := ["Method"; "Property"; "Field"; "Class"].

(** A reverse mapping, from kinds back to tags, that inverts the mapping
    table on its four named rows. *)
Definition reverses_table (back : protocol.CompletionItemKind → option string) : Prop :=
  back protocol.CompletionItemKindMethod = Some "Method" ∧
  back protocol.CompletionItemKindProperty = Some "Property" ∧
  back protocol.CompletionItemKindField = Some "Field" ∧
  back protocol.CompletionItemKindClass = Some "Class".

(** Modelled from the spec: the reverse mapping of section 8, defined for
    test purposes on the four named kinds; the program has none. *)
Definition kindTag (k : protocol.CompletionItemKind) : option string :=
  if (k =? protocol.CompletionItemKindMethod)%Z then Some "Method"
  else if (k =? protocol.CompletionItemKindProperty)%Z then Some "Property"
  else if (k =? protocol.CompletionItemKindField)%Z then Some "Field"
  else if (k =? protocol.CompletionItemKindClass)%Z then Some "Class"
  else None.

(** ** A reference model of encoding/json

    [parse] recognises RFC 8259 texts, as the library's validity scanner
    does; [Unmarshal] then stores a value into a slice of candidates the
    way [json.Unmarshal] does for that destination type; [Marshal] writes a
    request map.  The stub environment below is built from them. *)

Module JSON.

Local Open Scope Z_scope.

#[warnings="-register-all"]
Inductive value :=
| Null
| Bool (b : bool)
| Number (literal : string)
| Str (s : string)
| Array (elements : list value)
| Object (members : list (string * value)).

Definition code (c : ascii) : Z := Z.of_N (N_of_ascii c).
Definition chr (n : Z) : ascii := ascii_of_N (Z.to_N n).

Definition quote_mark : ascii := "034"%char.
Definition backslash : ascii := "092"%char.

Definition is_space (c : ascii) : bool :=
  (code c =? 32) || (code c =? 9) || (code c =? 10) || (code c =? 13).

Fixpoint skip_space (cs : list ascii) : list ascii :=
  match cs with
  | c :: rest => if is_space c then skip_space rest else cs
  | [] => []
  end.

Definition is_digit (c : ascii) : bool := (48 <=? code c) && (code c <=? 57).

Definition hex_digit (c : ascii) : option Z :=
  let n := code c in
  if (48 <=? n) && (n <=? 57) then Some (n - 48)
  else if (97 <=? n) && (n <=? 102) then Some (n - 87)
  else if (65 <=? n) && (n <=? 70) then Some (n - 55)
  else None.

Definition hex4 (a b c d : ascii) : option Z :=
  x ← hex_digit a; y ← hex_digit b; z ← hex_digit c; t ← hex_digit d;
  Some (((x * 16 + y) * 16 + z) * 16 + t).

(** The UTF-8 encoding of a code point. *)
Definition utf8 (r : Z) : list ascii :=
  if r <? 128 then [chr r]
  else if r <? 2048 then [chr (192 + r / 64); chr (128 + r mod 64)]
  else if r <? 65536 then
    [chr (224 + r / 4096); chr (128 + (r / 64) mod 64); chr (128 + r mod 64)]
  else
    [chr (240 + r / 262144); chr (128 + (r / 4096) mod 64);
     chr (128 + (r / 64) mod 64); chr (128 + r mod 64)].

Definition replacement_char : Z := 65533.
Definition is_surrogate (u : Z) : bool := (55296 <=? u) && (u <? 57344).

(** A surrogate pair gives one code point; a surrogate without its
    partner gives U+FFFD. *)
Definition pair_rune (hi lo : Z) : option Z :=
  if (hi <? 56320) && (56320 <=? lo) && (lo <? 57344)
  then Some (65536 + (hi - 55296) * 1024 + (lo - 56320))
  else None.

Definition escape (c : ascii) : option ascii :=
  if Ascii.eqb c quote_mark then Some quote_mark
  else if Ascii.eqb c backslash then Some backslash
  else if Ascii.eqb c "/" then Some "/"%char
  else if Ascii.eqb c "b" then Some (chr 8)
  else if Ascii.eqb c "f" then Some (chr 12)
  else if Ascii.eqb c "n" then Some (chr 10)
  else if Ascii.eqb c "r" then Some (chr 13)
  else if Ascii.eqb c "t" then Some (chr 9)
  else None.

(** The rest of a string literal, after its opening quote: the bytes it
    denotes and what follows the closing quote.  Bytes outside escapes are
    copied as they are. *)
Fixpoint unquote (cs : list ascii) : option (list ascii * list ascii) :=
  match cs with
  | [] => None
  | c :: rest =>
      if Ascii.eqb c quote_mark then Some ([], rest)
      else if Ascii.eqb c backslash then
        match rest with
        | [] => None
        | e :: rest1 =>
            if Ascii.eqb e "u" then
              match rest1 with
              | h1 :: h2 :: h3 :: h4 :: rest2 =>
                  match hex4 h1 h2 h3 h4 with
                  | None => None
                  | Some u =>
                      if is_surrogate u then
                        match rest2 with
                        | b :: u' :: l1 :: l2 :: l3 :: l4 :: rest3 =>
                            match
                              (if Ascii.eqb b backslash && Ascii.eqb u' "u"
                               then hex4 l1 l2 l3 l4 ≫= pair_rune u else None)
                            with
                            | Some r =>
                                '(s, q) ← unquote rest3; Some (utf8 r ++ s, q)
                            | None =>
                                '(s, q) ← unquote rest2;
                                Some (utf8 replacement_char ++ s, q)
                            end
                        | _ =>
                            '(s, q) ← unquote rest2;
                            Some (utf8 replacement_char ++ s, q)
                        end
                      else '(s, q) ← unquote rest2; Some (utf8 u ++ s, q)
                  end
              | _ => None
              end
            else
              match escape e with
              | Some x => '(s, q) ← unquote rest1; Some (x :: s, q)
              | None => None
              end
        end
      else if code c <? 32 then None
      else '(s, q) ← unquote rest; Some (c :: s, q)
  end.

Fixpoint digits (cs : list ascii) : list ascii * list ascii :=
  match cs with
  | c :: rest =>
      if is_digit c then let '(ds, q) := digits rest in (c :: ds, q) else ([], cs)
  | [] => ([], [])
  end.

Definition nonempty_digits (cs : list ascii) : option (list ascii * list ascii) :=
  match digits cs with
  | ([], _) => None
  | r => Some r
  end.

(** A number literal: an optional minus sign; then 0, or a digit from 1 to
    9 followed by digits; then optionally a point and at least one digit;
    then optionally e or E, an optional sign and at least one digit. *)
Definition scan_number (cs : list ascii) : option (list ascii * list ascii) :=
  let '(sign, cs) :=
    match cs with
    | c :: rest => if Ascii.eqb c "-" then ([c], rest) else ([], cs)
    | [] => ([], cs)
    end in
  '(int, cs) ←
    match cs with
    | c :: rest =>
        if Ascii.eqb c "0" then Some ([c], rest)
        else if is_digit c then let '(ds, q) := digits rest in Some (c :: ds, q)
        else None
    | [] => None
    end;
  '(frac, cs) ←
    match cs with
    | c :: rest =>
        if Ascii.eqb c "."
        then '(ds, q) ← nonempty_digits rest; Some (c :: ds, q)
        else Some ([], cs)
    | [] => Some ([], cs)
    end;
  '(exp, cs) ←
    match cs with
    | c :: rest =>
        if Ascii.eqb c "e" || Ascii.eqb c "E" then
          match rest with
          | s :: rest' =>
              if Ascii.eqb s "+" || Ascii.eqb s "-"
              then '(ds, q) ← nonempty_digits rest'; Some (c :: s :: ds, q)
              else '(ds, q) ← nonempty_digits rest; Some (c :: ds, q)
          | [] => None
          end
        else Some ([], cs)
    | [] => Some ([], cs)
    end;
  Some (sign ++ int ++ frac ++ exp, cs).

(** [cs] without the prefix [p], when it starts with it. *)
Fixpoint strip (p cs : list ascii) : option (list ascii) :=
  match p, cs with
  | [], _ => Some cs
  | a :: p', c :: cs' => if Ascii.eqb a c then strip p' cs' else None
  | _ :: _, [] => None
  end.

Fixpoint parse_value (fuel : nat) (cs : list ascii) : option (value * list ascii) :=
  match fuel with
  | O => None
  | S fuel =>
      match skip_space cs with
      | [] => None
      | c :: rest =>
          if Ascii.eqb c "n" then q ← strip (list_ascii_of_string "ull") rest; Some (Null, q)
          else if Ascii.eqb c "t" then
            q ← strip (list_ascii_of_string "rue") rest; Some (Bool true, q)
          else if Ascii.eqb c "f" then
            q ← strip (list_ascii_of_string "alse") rest; Some (Bool false, q)
          else if Ascii.eqb c quote_mark then
            '(s, q) ← unquote rest; Some (Str (string_of_list_ascii s), q)
          else if Ascii.eqb c "[" then
            match skip_space rest with
            | [] => None
            | d :: rest' =>
                if Ascii.eqb d "]" then Some (Array [], rest')
                else '(vs, q) ← parse_elements fuel (d :: rest'); Some (Array vs, q)
            end
          else if Ascii.eqb c "{" then
            match skip_space rest with
            | [] => None
            | d :: rest' =>
                if Ascii.eqb d "}" then Some (Object [], rest')
                else '(ms, q) ← parse_members fuel (d :: rest'); Some (Object ms, q)
            end
          else
            '(lit, q) ← scan_number (c :: rest); Some (Number (string_of_list_ascii lit), q)
      end
  end
with parse_elements (fuel : nat) (cs : list ascii) : option (list value * list ascii) :=
  match fuel with
  | O => None
  | S fuel =>
      '(v, q) ← parse_value fuel cs;
      match skip_space q with
      | [] => None
      | c :: rest =>
          if Ascii.eqb c "," then '(vs, q') ← parse_elements fuel rest; Some (v :: vs, q')
          else if Ascii.eqb c "]" then Some ([v], rest)
          else None
      end
  end
with parse_members (fuel : nat) (cs : list ascii)
  : option (list (string * value) * list ascii) :=
  match fuel with
  | O => None
  | S fuel =>
      match skip_space cs with
      | [] => None
      | c :: rest =>
          if Ascii.eqb c quote_mark then
            '(k, q) ← unquote rest;
            match skip_space q with
            | [] => None
            | d :: rest' =>
                if Ascii.eqb d ":" then
                  '(v, q') ← parse_value fuel rest';
                  match skip_space q' with
                  | [] => None
                  | e :: rest'' =>
                      if Ascii.eqb e "," then
                        '(ms, q'') ← parse_members fuel rest'';
                        Some ((string_of_list_ascii k, v) :: ms, q'')
                      else if Ascii.eqb e "}" then
                        Some ([(string_of_list_ascii k, v)], rest'')
                      else None
                  end
                else None
            end
          else None
      end
  end.

(** A whole text: one value, with white space around it and nothing else. *)
Definition parse (data : bytes) : option value :=
  let cs := list_ascii_of_string data in
  '(v, q) ← parse_value (2 * List.length cs + 2) cs;
  match skip_space q with
  | [] => Some v
  | _ :: _ => None
  end.

Definition kind_name (v : value) : string :=
  match v with
  | Null => "null"
  | Bool _ => "bool"
  | Number _ => "number"
  | Str _ => "string"
  | Array _ => "array"
  | Object _ => "object"
  end.

(** The text of a type error; the library names the whole Go type. *)
Definition type_error (v : value) (target : string) : string :=
  "json: cannot unmarshal " +:+ kind_name v +:+ " into Go value of type " +:+ target.

Definition syntax_error : string := "json: invalid JSON text".

(** *** Storing a value into a slice of candidates *)

(** A candidate as the backend writes it: an object of four strings. *)
Definition candidate_value (c : Candidate.t) : value :=
  Object [("CompletionText", Str (Candidate.CompletionText c));
          ("DisplayText", Str (Candidate.DisplayText c));
          ("Documentation", Str (Candidate.Documentation c));
          ("Kind", Str (Candidate.Kind c))].

(** The library matches an object key to a struct field by name, and then
    without regard to case: lower-case ASCII letters fold to upper case,
    and so do the two other runes whose case folding is an ASCII letter,
    U+017F (to S) and U+212A (to K). *)
Fixpoint fold_name (cs : list ascii) : list ascii :=
  match cs with
  | [] => []
  | c :: rest =>
      if (97 <=? code c) && (code c <=? 122) then chr (code c - 32) :: fold_name rest
      else if code c =? 197 then
        match rest with
        | d :: rest' =>
            if code d =? 191 then "S"%char :: fold_name rest' else c :: fold_name rest
        | [] => [c]
        end
      else if code c =? 226 then
        match rest with
        | d :: e :: rest' =>
            if (code d =? 132) && (code e =? 170)
            then "K"%char :: fold_name rest' else c :: fold_name rest
        | _ => c :: fold_name rest
        end
      else c :: fold_name rest
  end.

Definition folded (k : string) : string :=
  string_of_list_ascii (fold_name (list_ascii_of_string k)).

Inductive Field := FCompletionText | FDisplayText | FDocumentation | FKind.

Definition field_of_key (k : string) : option Field :=
  let f := folded k in
  if String.eqb f "COMPLETIONTEXT" then Some FCompletionText
  else if String.eqb f "DISPLAYTEXT" then Some FDisplayText
  else if String.eqb f "DOCUMENTATION" then Some FDocumentation
  else if String.eqb f "KIND" then Some FKind
  else None.

Definition set_field (f : Field) (s : string) (c : Candidate.t) : Candidate.t :=
  match f with
  | FCompletionText =>
      {| Candidate.CompletionText := s;
         Candidate.DisplayText := Candidate.DisplayText c;
         Candidate.Documentation := Candidate.Documentation c;
         Candidate.Kind := Candidate.Kind c |}
  | FDisplayText =>
      {| Candidate.CompletionText := Candidate.CompletionText c;
         Candidate.DisplayText := s;
         Candidate.Documentation := Candidate.Documentation c;
         Candidate.Kind := Candidate.Kind c |}
  | FDocumentation =>
      {| Candidate.CompletionText := Candidate.CompletionText c;
         Candidate.DisplayText := Candidate.DisplayText c;
         Candidate.Documentation := s;
         Candidate.Kind := Candidate.Kind c |}
  | FKind =>
      {| Candidate.CompletionText := Candidate.CompletionText c;
         Candidate.DisplayText := Candidate.DisplayText c;
         Candidate.Documentation := Candidate.Documentation c;
         Candidate.Kind := s |}
  end.

(** Decoding goes on after a value of the wrong type; the first such
    error is the one reported. *)
Definition first_error (old new : option string) : option string :=
  match old with
  | Some _ => old
  | None => new
  end.

(** One member of an object: a string sets its field (a later member
    overrides an earlier one), null leaves it, an unknown key is skipped. *)
Definition store_member (acc : Candidate.t * option string) (m : string * value)
  : Candidate.t * option string :=
  match field_of_key m.1 with
  | None => acc
  | Some f =>
      match m.2 with
      | Str s => (set_field f s acc.1, acc.2)
      | Null => acc
      | v => (acc.1, first_error acc.2 (Some (type_error v "string")))
      end
  end.

Definition store_element (v : value) : Candidate.t * option string :=
  match v with
  | Object ms => fold_left store_member ms (Candidate.zero, None)
  | Null => (Candidate.zero, None)
  | v => (Candidate.zero, Some (type_error v "struct"))
  end.

(** An array gives a slice of its length, null gives the nil slice, and
    any other value is a type error. *)
Definition store_slice (v : value) : list Candidate.t * option string :=
  match v with
  | Array vs =>
      let rs := map store_element vs in
      (map fst rs, fold_left first_error (map snd rs) None)
  | Null => ([], None)
  | v => ([], Some (type_error v "slice"))
  end.

(** [json.Unmarshal(data, &omnisharpResponse)]: the text is checked
    first, and a text that is not JSON leaves the slice alone. *)
Definition Unmarshal (data : bytes) : list Candidate.t * option string :=
  match parse data with
  | None => ([], Some syntax_error)
  | Some v => store_slice v
  end.

(** *** Writing a request map *)

Definition hex_char (n : Z) : ascii := if n <? 10 then chr (48 + n) else chr (87 + n).

Definition quote_char (c : ascii) : list ascii :=
  if Ascii.eqb c quote_mark then [backslash; quote_mark]
  else if Ascii.eqb c backslash then [backslash; backslash]
  else if code c =? 10 then [backslash; "n"%char]
  else if code c =? 13 then [backslash; "r"%char]
  else if code c =? 9 then [backslash; "t"%char]
  else if (code c <? 32) || Ascii.eqb c "<" || Ascii.eqb c ">" || Ascii.eqb c "&" then
    [backslash; "u"; "0"; "0"; hex_char (code c / 16); hex_char (code c mod 16)]%char
  else [c].

(** A string literal for [s], followed by [rest]. *)
Definition string_text (s : string) (rest : list ascii) : list ascii :=
  quote_mark :: concat (map quote_char (list_ascii_of_string s)) ++ quote_mark :: rest.

Definition quote (s : string) : string := string_of_list_ascii (string_text s []).

Definition decimal (n : Z) : string := NilEmpty.string_of_uint (N.to_uint (Z.to_N n)).

Definition marshal_value (v : iface) : string :=
  match v with
  | IUint32 n => decimal n
  | IString s => quote s
  end.

(** The keys of a map are written in sorted order. *)
Fixpoint insert_sorted (kv : string * iface) (l : list (string * iface))
  : list (string * iface) :=
  match l with
  | [] => [kv]
  | kv' :: rest =>
      if String.leb kv.1 kv'.1 then kv :: l else kv' :: insert_sorted kv rest
  end.

Definition sorted_members (m : gmap string iface) : list (string * iface) :=
  foldr insert_sorted [] (map_to_list m).

Fixpoint join (sep : string) (l : list string) : string :=
  match l with
  | [] => ""
  | [x] => x
  | x :: rest => x +:+ sep +:+ join sep rest
  end.

Definition Marshal (m : gmap string iface) : bytes :=
  "{" +:+ join "," (map (λ kv, quote kv.1 +:+ ":" +:+ marshal_value kv.2)
                        (sorted_members m)) +:+ "}".

(** *** Writing candidates

    The text of a backend's answer: an array of objects, each with the four
    members of a candidate, without white space. *)

Definition candidate_text (c : Candidate.t) (rest : list ascii) : list ascii :=
  "{"%char ::
  string_text "CompletionText" (":"%char :: string_text (Candidate.CompletionText c)
  (","%char ::
  string_text "DisplayText" (":"%char :: string_text (Candidate.DisplayText c)
  (","%char ::
  string_text "Documentation" (":"%char :: string_text (Candidate.Documentation c)
  (","%char ::
  string_text "Kind" (":"%char :: string_text (Candidate.Kind c)
  ("}"%char :: rest)))))))).

(** The elements of a non-empty array and its closing bracket. *)
Fixpoint candidates_text (cs : list Candidate.t) (rest : list ascii) : list ascii :=
  match cs with
  | [] => rest
  | [c] => candidate_text c ("]"%char :: rest)
  | c :: cs' => candidate_text c (","%char :: candidates_text cs' rest)
  end.

Definition render (cs : list Candidate.t) : bytes :=
  string_of_list_ascii
    ("["%char :: match cs with
                 | [] => ["]"%char]
                 | _ :: _ => candidates_text cs []
                 end).

(** *** Decoding request parameters *)

(** The value of the last member named [k]. *)
Definition member (k : string) (ms : list (string * value)) : option value :=
  fold_left (λ acc m, if String.eqb m.1 k then Some m.2 else acc) ms None.

Definition get_object (o : option value) : string + list (string * value) :=
  match o with
  | None | Some Null => inr []
  | Some (Object ms) => inr ms
  | Some v => inl (type_error v "struct")
  end.

Definition get_string (o : option value) : string + string :=
  match o with
  | None | Some Null => inr ""
  | Some (Str s) => inr s
  | Some v => inl (type_error v "string")
  end.

Definition digits_value (cs : list ascii) : Z :=
  fold_left (λ acc c, acc * 10 + (code c - 48)) cs 0.

Definition get_uint32 (o : option value) : string + Z :=
  match o with
  | None | Some Null => inr 0
  | Some (Number lit) =>
      let cs := list_ascii_of_string lit in
      if forallb is_digit cs && (digits_value cs <? 2 ^ 32) then inr (digits_value cs)
      else inl (type_error (Number lit) "uint32")
  | Some v => inl (type_error v "uint32")
  end.

Definition bind_sum {A B} (x : string + A) (f : A → string + B) : string + B :=
  match x with
  | inl e => inl e
  | inr a => f a
  end.

Definition CompletionParams_of (data : bytes) : string + protocol.CompletionParams :=
  match parse data with
  | None => inl syntax_error
  | Some v =>
      bind_sum (get_object (Some v)) (λ top,
      bind_sum (get_object (member "textDocument" top)) (λ doc,
      bind_sum (get_string (member "uri" doc)) (λ uri,
      bind_sum (get_object (member "position" top)) (λ pos,
      bind_sum (get_uint32 (member "line" pos)) (λ line,
      bind_sum (get_uint32 (member "character" pos)) (λ character,
      inr {| protocol.TextDocument := {| protocol.URI := uri |};
             protocol.Position_ :=
               {| protocol.Line := line; protocol.Character := character |} |}))))))
  end.

Definition InitializeParams_of (data : bytes) : string + protocol.InitializeParams :=
  match parse data with
  | None => inl syntax_error
  | Some v =>
      bind_sum (get_object (Some v)) (λ top,
      bind_sum (get_uint32 (member "processId" top)) (λ pid,
      bind_sum (get_string (member "rootUri" top)) (λ root,
      inr {| protocol.ProcessID := pid; protocol.RootURI := root |})))
  end.

End JSON.

(** ** The stub environment

    A backend given as a function, the reference model of encoding/json, a
    stream that accepts every write, and a URL check that refuses control
    characters, as net/url does. *)

Definition has_control_byte (url : string) : bool :=
  existsb (λ c, (JSON.code c <? 32)%Z || (JSON.code c =? 127)%Z) (list_ascii_of_string url).

(** [file:///Foo.cs] names the file [/Foo.cs]. *)
Definition file_of_uri (uri : string) : string :=
  match JSON.strip (list_ascii_of_string "file://") (list_ascii_of_string uri) with
  | Some path => string_of_list_ascii path
  | None => uri
  end.

Definition stub_env (backend : Trace → http.Request → string + http.Response) : Env :=
  {| json_Marshal := λ m, inr (JSON.Marshal m);
     url_Parse := λ url,
       if has_control_byte url then Some "net/url: invalid control character in URL"
       else None;
     RoundTrip := backend;
     json_Unmarshal := JSON.Unmarshal;
     UnmarshalTo_InitializeParams := JSON.InitializeParams_of;
     UnmarshalTo_CompletionParams := JSON.CompletionParams_of;
     Filename := file_of_uri;
     stream_Write := λ _ _, None;
     handler_error_is_fatal := true |}.

(** A backend that answers every request with [body] and status [status]. *)
Definition answering (status : Z) (body : bytes)
  : Trace → http.Request → string + http.Response :=
  λ _ _, inr {| http.StatusCode := status;
                http.Body := {| http.content := body; http.failure := None |} |}.

(** A backend that cannot be reached. *)
Definition unreachable : Trace → http.Request → string + http.Response :=
  λ _ _, inl "dial tcp 127.0.0.1:2000: connect: connection refused".

(** A server whose bridge is set up, as [NewOmniSharpClient] would. *)
Definition stub_server : Server :=
  {| conn := Some jsonrpc2.TheConn; client_ := None;
     omnisharp := Some (NewOmniSharpClient "http://localhost:2000") |}.

(** A completion request at line 10, column 4 of [Foo.cs]. *)
Definition stub_params : protocol.CompletionParams :=
  {| protocol.TextDocument := {| protocol.URI := "file:///Foo.cs" |};
     protocol.Position_ := {| protocol.Line := 10; protocol.Character := 4 |} |}.

Definition quoted (s : string) : string :=
  String JSON.quote_mark s +:+ String JSON.quote_mark "".

(** The answer of the stub backend of section 8: one candidate, written as
    a JSON array of one object. *)
Definition stub_body : bytes :=
  "[{" +:+ quoted "CompletionText" +:+ ":" +:+ quoted "Bar" +:+ ","
       +:+ quoted "DisplayText" +:+ ":" +:+ quoted "Bar()" +:+ ","
       +:+ quoted "Documentation" +:+ ":" +:+ quoted "doc" +:+ ","
       +:+ quoted "Kind" +:+ ":" +:+ quoted "Method" +:+ "}]".

Definition stub_candidate : Candidate.t :=
  {| Candidate.CompletionText := "Bar"; Candidate.DisplayText := "Bar()";
     Candidate.Documentation := "doc"; Candidate.Kind := "Method" |}.

(** The serialised query of that request. *)
Definition stub_query_json : bytes :=
  "{" +:+ quoted "Column" +:+ ":4," +:+ quoted "FileName" +:+ ":" +:+ quoted "/Foo.cs"
      +:+ "," +:+ quoted "Line" +:+ ":10}".

(** The same request as a message on the stream, with id 1. *)
Definition stub_request : jsonrpc2.Request :=
  {| jsonrpc2.ID := Some 1%Z;
     jsonrpc2.Method := protocol.MethodTextDocumentCompletion;
     jsonrpc2.Params :=
       "{" +:+ quoted "textDocument" +:+ ":{" +:+ quoted "uri" +:+ ":"
           +:+ quoted "file:///Foo.cs" +:+ "}," +:+ quoted "position" +:+ ":{"
           +:+ quoted "line" +:+ ":10," +:+ quoted "character" +:+ ":4}}" |}.

(** An initialize call, with id 0. *)
Definition stub_initialize : jsonrpc2.Request :=
  {| jsonrpc2.ID := Some 0%Z;
     jsonrpc2.Method := protocol.MethodInitialize;
     jsonrpc2.Params :=
       "{" +:+ quoted "processId" +:+ ":42," +:+ quoted "rootUri" +:+ ":"
           +:+ quoted "file:///work" +:+ "}" |}.

(** ** What the specification expects of initialize

    The initialize result of section 6: completion with the trigger
    characters [.] and space, full document sync, open/close accepted. *)
Definition initialize_result : protocol.InitializeResult :=
  {| protocol.Capabilities :=
       {| protocol.CompletionProvider :=
            Some {| protocol.TriggerCharacters := ["."; " "] |};
          protocol.TextDocumentSync :=
            Some {| protocol.Change := protocol.TextDocumentSyncKindFull;
                    protocol.OpenClose := true |} |} |}.

(** ** What the specification expects of a completion

    The request of the backend's HTTP contract (section 6): a POST to
    [baseURL/autocomplete] with content type [application/json] and the
    serialised query as its body. *)
Definition json_post (url : string) (jsonData : bytes) : http.Request :=
  {| http.Method := "POST";
     http.URL := url;
     http.Header := <["Content-Type" := "application/json"]> ∅;
     http.ReqBody := jsonData |}.

Definition autocomplete_post (o : OmniSharpClient) (jsonData : bytes) : http.Request :=
  json_post (baseURL o +:+ "/autocomplete") jsonData.

(** [SendRequest], run on the trace [w], makes one round trip, with the
    request [req], and the backend's answer to it is [r]: a response, or the
    text of a transport error. *)
Definition bridge_answers (env : Env) (o : option OmniSharpClient) (endpoint : string)
    (request : gmap string iface) (w : Trace) (req : http.Request)
    (r : string + http.Response) : Prop :=
  round_trips (SendRequest env o endpoint request w).2 = round_trips w ++ [req] ∧
  RoundTrip env w req = r.

(** The same for [handleCompletion]. *)
Definition backend_answers (env : Env) (s : Server) (params : protocol.CompletionParams)
    (w : Trace) (req : http.Request) (r : string + http.Response) : Prop :=
  round_trips (handleCompletion env s params w).2 = round_trips w ++ [req] ∧
  RoundTrip env w req = r.

(** The backend's answer [resp] arrives whole, and decoding its body gives
    the candidates [cs] and no error: the body is a JSON array of [cs]. *)
Definition answers_candidates (env : Env) (resp : http.Response)
    (cs : list Candidate.t) : Prop :=
  http.failure (http.Body resp) = None ∧
  json_Unmarshal env (http.content (http.Body resp)) = (cs, None).

(** A text that is not JSON, or a JSON value that is not an array. *)
Definition not_a_json_array (body : bytes) : Prop :=
  JSON.parse body = None ∨
  ∃ v, JSON.parse body = Some v ∧ ∀ vs, v ≠ JSON.Array vs.

(** The decode-failure property of section 8, read on the stub
    environment as it is worded: every body that is not JSON or not an array
    makes the completion handler fail with a decode error. *)
Definition every_non_array_is_a_decode_error : Prop :=
  ∀ body, not_a_json_array body →
    ∃ e w', handleCompletion (stub_env (answering 200 body)) stub_server stub_params []
            = (Returned (None, Some e), w') ∧
            classify e = DecodeError.

(** A text that is not JSON, or a JSON value that is neither an array nor
    null. *)
Definition not_decodable_as_slice (body : bytes) : Prop :=
  JSON.parse body = None ∨
  ∃ v, JSON.parse body = Some v ∧ v ≠ JSON.Null ∧ ∀ vs, v ≠ JSON.Array vs.

(** The bridge of [s] is [o], set up with an HTTP client and a base URL
    that parses, and the query of [params] serialises to [jsonData]. *)
Definition bridge_ready (env : Env) (s : Server) (o : OmniSharpClient)
    (params : protocol.CompletionParams) (jsonData : bytes) : Prop :=
  omnisharp s = Some o ∧
  client o = Some http.DefaultClient ∧
  json_Marshal env (omnisharpRequest env params) = inr jsonData ∧
  url_Parse env (baseURL o +:+ "/autocomplete") = None.

(** ** The loop of [handleCompletion] with Go's bounds check

    [items[i] = ...] panics when [i] is not below [len(items)]; here a panic
    is [None]. *)
Fixpoint fill_items_checked (i : nat) (omnisharpResponse : list Candidate.t)
    (items : list protocol.CompletionItem) : option (list protocol.CompletionItem) :=
  match omnisharpResponse with
  | [] => Some items
  | item :: rest =>
      if decide (i < length items)
      then fill_items_checked (S i) rest (<[i := item_of item]> items)
      else None
  end.

(** ** What a call of [handle] does with its replier *)

(** Either [handle] comes back without invoking the replier, or its last
    step is one call of the replier. *)
Inductive Dispatched :=
| Returns (r : Outcome (option error)) (w' : Trace)
| Replies (result : Result) (err : option error) (w' : Trace).

Definition dispatched_run (d : Dispatched) (ctx : Context) (reply : Replier)
  : Outcome (option error) * Trace :=
  match d with
  | Returns r w' => (r, w')
  | Replies result err w' => reply ctx result err w'
  end.

(** The [interface{}] result holds a nil pointer. *)
Definition result_is_nil (result : Result) : bool :=
  match result with
  | ResultInitialize None | ResultCompletion None => true
  | ResultInitialize (Some _) | ResultCompletion (Some _) => false
  end.

(** The kinds [convertKind] can give. *)
Definition converted_kinds : list protocol.CompletionItemKind :=
  [protocol.CompletionItemKindText; protocol.CompletionItemKindMethod;
   protocol.CompletionItemKindField; protocol.CompletionItemKindClass;
   protocol.CompletionItemKindProperty].

(** The calls whose errors [handleCompletion] passes on. *)
Definition completion_origins : list Origin :=
  [FromMarshal; FromNewRequest; FromDo; FromReadAll; FromUnmarshal].

(** ** os.File, as far as [StdioStream] uses it

    Files are handles into a table that says which are open; what an open
    file holds is not modelled: what closing, reading or writing an open file
    gives is the operating system's, a field of [os.Sys]. *)

Module os.

Inductive FileState := Open | Closed.

Inductive Error :=
| ErrInvalid                          (* a nil file *)
| ErrClosed (op : string)             (* op: file already closed *)
| SyscallError (op : string) (msg : string)
| EOF.

Definition Stdin : nat := 0.
Definition Stdout : nat := 1.

Record Sys := {
  close_result : nat → option Error;
  read_result : nat → nat → bytes * option Error;
  write_result : nat → bytes → nat * option Error
}.

(** [f.Close()]: a file that is open is closed, whatever the system call
    reports; a file that is not open is left alone. *)
Definition Close (sys : Sys) (f : option nat) (t : gmap nat FileState)
  : option Error * gmap nat FileState :=
  match f with
  | None => (Some ErrInvalid, t)
  | Some h =>
      match t !! h with
      | Some Open => (close_result sys h, <[h := Closed]> t)
      | _ => (Some (ErrClosed "close"), t)
      end
  end.

(** [f.Read(p)], with [n] the length of [p]: the bytes read and the error. *)
Definition Read (sys : Sys) (f : option nat) (n : nat) (t : gmap nat FileState)
  : bytes * option Error :=
  match f with
  | None => ("", Some ErrInvalid)
  | Some h =>
      match t !! h with
      | Some Open => read_result sys h n
      | _ => ("", Some (ErrClosed "read"))
      end
  end.

(** [f.Write(p)]: the number of bytes written and the error. *)
Definition Write (sys : Sys) (f : option nat) (p : bytes) (t : gmap nat FileState)
  : nat * option Error :=
  match f with
  | None => (0, Some ErrInvalid)
  | Some h =>
      match t !! h with
      | Some Open => write_result sys h p
      | _ => (0, Some (ErrClosed "write"))
      end
  end.

End os.

(** ** [StdioStream] (main.go) *)

Record StdioStream := {
  in_ : option nat;      (* in  *os.File *)
  out : option nat       (* out *os.File *)
}.

Definition NewStdioStream : StdioStream :=
  {| in_ := Some os.Stdin; out := Some os.Stdout |}.

(** [func (s *StdioStream) Read(p []byte) (int, error)] *)
Definition StdioStream_Read (sys : os.Sys) (s : StdioStream) (n : nat)
    (t : gmap nat os.FileState) : bytes * option os.Error :=
  os.Read sys (in_ s) n t.

(** [func (s *StdioStream) Write(p []byte) (int, error)] *)
Definition StdioStream_Write (sys : os.Sys) (s : StdioStream) (p : bytes)
    (t : gmap nat os.FileState) : nat * option os.Error :=
  os.Write sys (out s) p t.

(** [func (s *StdioStream) Close() error] *)
Definition StdioStream_Close (sys : os.Sys) (s : StdioStream)
    (t : gmap nat os.FileState) : option os.Error * gmap nat os.FileState :=
  match os.Close sys (in_ s) t with
  | (Some err, t') => (Some err, t')
  | (None, t') => os.Close sys (out s) t'
  end.

(** ** More stub fixtures *)

(** An operating system on which every call succeeds. *)
Definition calm_sys : os.Sys :=
  {| os.close_result := λ _, None;
     os.read_result := λ _ _, ("", Some os.EOF);
     os.write_result := λ _ p, (String.length p, None) |}.

(** An operating system on which closing the standard input fails. *)
Definition jammed_sys : os.Sys :=
  {| os.close_result := λ h,
       if decide (h = os.Stdin) then Some (os.SyscallError "close" "input/output error")
       else None;
     os.read_result := os.read_result calm_sys;
     os.write_result := os.write_result calm_sys |}.

(** The files of a process at its start. *)
Definition fresh_files : gmap nat os.FileState :=
  <[os.Stdin := os.Open]> (<[os.Stdout := os.Open]> ∅).

(** The stub environment with a serialiser that refuses its argument. *)
Definition refusing_env : Env :=
  {| json_Marshal := λ _, inl "json: unsupported type";
     url_Parse := url_Parse (stub_env unreachable);
     RoundTrip := unreachable;
     json_Unmarshal := JSON.Unmarshal;
     UnmarshalTo_InitializeParams := JSON.InitializeParams_of;
     UnmarshalTo_CompletionParams := JSON.CompletionParams_of;
     Filename := file_of_uri;
     stream_Write := λ _ _, None;
     handler_error_is_fatal := true |}.

(** A base URL with a control character in it. *)
Definition broken_url : string := "http://local" +:+ String "127"%char "host".

(** A backend whose answer breaks off while it is read. *)
Definition breaking_off (part : bytes) : Trace → http.Request → string + http.Response :=
  λ _ _, inr {| http.StatusCode := 200;
                http.Body := {| http.content := part;
                                http.failure := Some "unexpected EOF" |} |}.

(** A completion request whose parameters are not JSON. *)
Definition garbled_request : jsonrpc2.Request :=
  {| jsonrpc2.ID := Some 2%Z;
     jsonrpc2.Method := protocol.MethodTextDocumentCompletion;
     jsonrpc2.Params := "{" |}.

(** * Properties *)

(** ** The kind mapping *)

Section Kinds.

Lemma convertKind_cases (k : string) :
  (k = "Method" ∧ convertKind k = protocol.CompletionItemKindMethod) ∨
  (k = "Property" ∧ convertKind k = protocol.CompletionItemKindProperty) ∨
  (k = "Field" ∧ convertKind k = protocol.CompletionItemKindField) ∨
  (k = "Class" ∧ convertKind k = protocol.CompletionItemKindClass) ∨
  ((k ∉ kind_tags) ∧ convertKind k = protocol.CompletionItemKindText).
Proof.
  unfold convertKind.
  destruct (String.eqb_spec k "Method") as [->|Hm]; [by left|].
  destruct (String.eqb_spec k "Property") as [->|Hp]; [by right; left|].
  destruct (String.eqb_spec k "Field") as [->|Hf]; [by right; right; left|].
  destruct (String.eqb_spec k "Class") as [->|Hc]; [by right; right; right; left|].
  do 4 right. split; [|done].
  unfold kind_tags. rewrite !elem_of_cons, elem_of_nil. tauto.
Qed.

End Kinds.

(** C2.  [convertKind] is defined on every string: the four named tags go
    to the kinds of the same name, every other string goes to the generic
    text kind, and the result is always one of the kinds the protocol
    defines. *)
Theorem convertKind_total :
  convertKind "Method" = protocol.CompletionItemKindMethod ∧
  convertKind "Property" = protocol.CompletionItemKindProperty ∧
  convertKind "Field" = protocol.CompletionItemKindField ∧
  convertKind "Class" = protocol.CompletionItemKindClass ∧
  (∀ k : string, k ∉ kind_tags → convertKind k = protocol.CompletionItemKindText) ∧
  (∀ k : string, protocol.defined_kind (convertKind k)).
Proof.
  repeat split; try reflexivity.
  - intros k Hk.
    destruct (convertKind_cases k) as [[-> _]|[[-> _]|[[-> _]|[[-> _]|[_ H]]]]];
      try done; exfalso; apply Hk; unfold kind_tags; set_solver.
  - destruct (convertKind_cases k) as [[_ ->]|[[_ ->]|[[_ ->]|[[_ ->]|[_ ->]]]]];
      vm_compute; congruence.
  - destruct (convertKind_cases k) as [[_ ->]|[[_ ->]|[[_ ->]|[[_ ->]|[_ ->]]]]];
      vm_compute; congruence.
Qed.

(** An unlisted tag, here the backend's [Enum], goes to the text kind. *)
Lemma convertKind_total_witness :
  ("Enum" ∉ kind_tags) ∧ convertKind "Enum" = protocol.CompletionItemKindText.
Proof.
  assert (H : "Enum" ∉ kind_tags).
  { unfold kind_tags. rewrite !elem_of_cons, elem_of_nil. intuition congruence. }
  split; [exact H|].
  exact (proj1 (proj2 (proj2 (proj2 (proj2 convertKind_total)))) "Enum" H).
Defined.

(** C9.  Round trip: for a candidate whose tag is one of [Method],
    [Property], [Field], [Class], the kind of the item built from it,
    mapped back by a reverse mapping of the table, is the candidate's tag;
    the four tags have four different kinds, so such a mapping exists. *)
Theorem kind_round_trip (back : protocol.CompletionItemKind → option string)
    (c : Candidate.t) :
  reverses_table back →
  Candidate.Kind c ∈ kind_tags →
  back (protocol.Kind (item_of c)) = Some (Candidate.Kind c) ∧
  ∀ c' : Candidate.t, Candidate.Kind c' ∈ kind_tags →
    protocol.Kind (item_of c') = protocol.Kind (item_of c) →
    Candidate.Kind c' = Candidate.Kind c.
Proof.
  intros (Hm & Hp & Hf & Hc) Hin.
  assert (Hback : ∀ d : Candidate.t, Candidate.Kind d ∈ kind_tags →
            back (protocol.Kind (item_of d)) = Some (Candidate.Kind d)).
  { intros d Hd. simpl.
    destruct (convertKind_cases (Candidate.Kind d))
      as [[Hk ->]|[[Hk ->]|[[Hk ->]|[[Hk ->]|[Hk _]]]]]; by rewrite ?Hk. }
  split; [by apply Hback|].
  intros c' Hin' Heq.
  pose proof (Hback c' Hin') as H'. rewrite Heq, (Hback c Hin) in H'. congruence.
Qed.

(** The reverse mapping of the specification, on the stub candidate. *)
Lemma kind_round_trip_witness :
  reverses_table kindTag ∧
  Candidate.Kind stub_candidate ∈ kind_tags ∧
  kindTag (protocol.Kind (item_of stub_candidate)) = Some "Method".
Proof.
  assert (Hr : reverses_table kindTag) by (repeat split).
  assert (H : Candidate.Kind stub_candidate ∈ kind_tags).
  { unfold kind_tags; simpl. apply list_elem_of_here. }
  split; [exact Hr|]. split; [exact H|].
  exact (proj1 (kind_round_trip kindTag stub_candidate Hr H)).
Defined.

(** ** Initialize *)

(** C6.  [handleInitialize] returns the same result for every server and
    every parameters: completion with the trigger characters [.] and space,
    full document sync with open/close notifications, and no error; so
    [handle] answers every initialize request whose parameters decode with
    that result. *)
Theorem handleInitialize_fixed (s : Server) (params : protocol.InitializeParams) :
  handleInitialize s params = (Some initialize_result, None) ∧
  protocol.TriggerCharacters <$>
    protocol.CompletionProvider (protocol.Capabilities initialize_result)
    = Some ["."; " "] ∧
  protocol.TextDocumentSync (protocol.Capabilities initialize_result)
    = Some {| protocol.Change := protocol.TextDocumentSyncKindFull;
              protocol.OpenClose := true |} ∧
  (∀ (s' : Server) (params' : protocol.InitializeParams),
     handleInitialize s' params' = handleInitialize s params) ∧
  (handleInitialize s params).2 = None ∧
  (∀ (env : Env) (ctx : Context) (reply : Replier) (req : jsonrpc2.Request) (w : Trace),
     jsonrpc2.Method req = protocol.MethodInitialize →
     UnmarshalTo_InitializeParams env (jsonrpc2.Params req) = inr params →
     handle env s ctx reply req w =
       reply ctx (ResultInitialize (Some initialize_result)) None w).
Proof.
  repeat (split; [reflexivity|]).
  intros env ctx reply req w Hm Hp. unfold handle. rewrite Hm, Hp. reflexivity.
Qed.

(** An initialize call on the stub environment: the response carries the
    fixed result. *)
Lemma handleInitialize_fixed_witness :
  handle (stub_env unreachable) stub_server context_Background
    (conn_replier (stub_env unreachable) stub_initialize) stub_initialize [] =
  (Returned None,
   [EvWrite {| jsonrpc2.RespID := 0;
               jsonrpc2.RespResult := ResultInitialize (Some initialize_result);
               jsonrpc2.RespErr := None |}]).
Proof.
  refine (eq_trans
            (proj2 (proj2 (proj2 (proj2 (proj2
               (handleInitialize_fixed stub_server
                  {| protocol.ProcessID := 42; protocol.RootURI := "file:///work" |})))))
               (stub_env unreachable) context_Background
               (conn_replier (stub_env unreachable) stub_initialize) stub_initialize []
               eq_refl _) _);
    vm_compute; reflexivity.
Defined.

(** ** The loop of [handleCompletion] *)

Section Items.

Lemma fill_items_app (done todo : list Candidate.t) (z : protocol.CompletionItem) :
  fill_items (length done) todo (map item_of done ++ replicate (length todo) z) =
  map item_of (done ++ todo).
Proof.
  revert done. induction todo as [|c todo IH]; intros done; simpl.
  - by rewrite !app_nil_r.
  - replace (length done) with (length (map item_of done) + 0) at 2
      by (rewrite length_map; lia).
    rewrite insert_app_r. simpl.
    specialize (IH (done ++ [c])).
    rewrite length_app, map_app in IH. simpl in IH.
    rewrite Nat.add_1_r, <- app_assoc in IH. simpl in IH.
    rewrite IH, <- app_assoc. done.
Qed.

(** The loop stores, at each index, the item of the candidate at that
    index. *)
Lemma fill_items_map (cs : list Candidate.t) :
  fill_items 0 cs (replicate (length cs) protocol.CompletionItem_zero) = map item_of cs.
Proof. exact (fill_items_app [] cs protocol.CompletionItem_zero). Qed.

End Items.

(** ** The bridge, step by step *)

Section Bridge.

Context (env : Env).

(** With a client, a request that serialises and a URL that parses,
    [SendRequest] makes one round trip; it returns the transport error, or
    what reading the body gives, and closes the body. *)
Lemma SendRequest_run (o : OmniSharpClient) (endpoint : string)
    (request : gmap string iface) (jsonData : bytes) (w : Trace) :
  client o = Some http.DefaultClient →
  json_Marshal env request = inr jsonData →
  url_Parse env (baseURL o +:+ endpoint) = None →
  SendRequest env (Some o) endpoint request w =
    let req := json_post (baseURL o +:+ endpoint) jsonData in
    match RoundTrip env w req with
    | inl msg => (Returned ("", Some (Error FromDo msg)), w ++ [EvRoundTrip req])
    | inr resp =>
        (Returned (ioutil.ReadAll (http.Body resp)), w ++ [EvRoundTrip req; EvBodyClose])
    end.
Proof.
  intros Hc Hm Hu. unfold SendRequest, http_NewRequest, http_Do.
  rewrite Hm. unfold mbind, M_bind, deref, mret, M_ret. rewrite Hu, Hc.
  unfold round_trip, http.Header_Set, json_post. cbn.
  destruct (RoundTrip env w _) as [msg|resp]; cbn; [done|].
  unfold emit. by rewrite <- app_assoc.
Qed.

(** A nil receiver: the request is serialised, and reading [o.baseURL]
    panics before anything is sent. *)
Lemma SendRequest_nil (endpoint : string) (request : gmap string iface) (w : Trace) :
  SendRequest env None endpoint request w =
    match json_Marshal env request with
    | inl msg => (Returned ("", Some (Error FromMarshal msg)), w)
    | inr _ => (Panicked NilDereference, w)
    end.
Proof. unfold SendRequest. by destruct (json_Marshal env request). Qed.

(** [handleCompletion] on a server whose bridge is ready. *)
Lemma handleCompletion_run (s : Server) (o : OmniSharpClient)
    (params : protocol.CompletionParams) (jsonData : bytes) (w : Trace) :
  bridge_ready env s o params jsonData →
  handleCompletion env s params w =
    let req := autocomplete_post o jsonData in
    match RoundTrip env w req with
    | inl msg => (Returned (None, Some (Error FromDo msg)), w ++ [EvRoundTrip req])
    | inr resp =>
        let w' := w ++ [EvRoundTrip req; EvBodyClose] in
        match http.failure (http.Body resp) with
        | Some msg => (Returned (None, Some (Error FromReadAll msg)), w')
        | None =>
            match json_Unmarshal env (http.content (http.Body resp)) with
            | (_, Some msg) => (Returned (None, Some (Error FromUnmarshal msg)), w')
            | (cs, None) =>
                (Returned (Some {| protocol.IsIncomplete := false;
                                   protocol.Items := map item_of cs |}, None), w')
            end
        end
    end.
Proof.
  intros (Ho & Hc & Hm & Hu). unfold handleCompletion.
  rewrite Ho. unfold mbind at 1, M_bind at 1.
  rewrite (SendRequest_run o "/autocomplete" _ jsonData w Hc Hm Hu). cbn.
  unfold autocomplete_post.
  destruct (RoundTrip env w _) as [msg|resp]; [done|].
  unfold ioutil.ReadAll.
  destruct (http.failure (http.Body resp)) as [msg|]; cbn; [done|].
  destruct (json_Unmarshal env _) as [cs [msg|]]; [done|].
  by rewrite fill_items_map.
Qed.

End Bridge.

(** ** Dispatch and the connection, step by step *)

Section Dispatch.

Context (env : Env).

Lemma handle_initialize (s : Server) (ctx : Context) (reply : Replier)
    (req : jsonrpc2.Request) (w : Trace) :
  jsonrpc2.Method req = protocol.MethodInitialize →
  handle env s ctx reply req w =
    match UnmarshalTo_InitializeParams env (jsonrpc2.Params req) with
    | inl msg => (Returned (Some (Error FromParams msg)), w)
    | inr params =>
        reply ctx (ResultInitialize (handleInitialize s params).1)
              (handleInitialize s params).2 w
    end.
Proof.
  intros Hm. unfold handle. rewrite Hm. cbn.
  by destruct (UnmarshalTo_InitializeParams env _).
Qed.

Lemma handle_completion (s : Server) (ctx : Context) (reply : Replier)
    (req : jsonrpc2.Request) (w : Trace) :
  jsonrpc2.Method req = protocol.MethodTextDocumentCompletion →
  handle env s ctx reply req w =
    match UnmarshalTo_CompletionParams env (jsonrpc2.Params req) with
    | inl msg => (Returned (Some (Error FromParams msg)), w)
    | inr params =>
        match handleCompletion env s params w with
        | (Returned r, w') => reply ctx (ResultCompletion r.1) r.2 w'
        | (Panicked p, w') => (Panicked p, w')
        end
    end.
Proof.
  intros Hm. unfold handle. rewrite Hm. cbn.
  by destruct (UnmarshalTo_CompletionParams env _).
Qed.

Lemma handle_other (s : Server) (ctx : Context) (reply : Replier)
    (req : jsonrpc2.Request) (w : Trace) :
  jsonrpc2.Method req ≠ protocol.MethodInitialize →
  jsonrpc2.Method req ≠ protocol.MethodTextDocumentCompletion →
  handle env s ctx reply req w = (Returned None, w).
Proof.
  intros Hi Hc. unfold handle.
  destruct (String.eqb_spec (jsonrpc2.Method req) protocol.MethodInitialize); [done|].
  by destruct (String.eqb_spec (jsonrpc2.Method req) protocol.MethodTextDocumentCompletion).
Qed.

(** One turn of the loop. *)
Lemma conn_Go_step (ctx : Context)
    (handler : Context → Replier → jsonrpc2.Request → M (option error))
    (req : jsonrpc2.Request) (rest : list jsonrpc2.Request) (w : Trace) :
  conn_Go env ctx handler (req :: rest) w =
    match handler ctx (conn_replier env req) req w with
    | (Returned None, w') => conn_Go env ctx handler rest w'
    | (Returned (Some e), w') =>
        if handler_error_is_fatal env then (Returned (Some e), w')
        else conn_Go env ctx handler rest w'
    | (Panicked p, w') => (Panicked p, w')
    end.
Proof.
  cbn. unfold mbind, M_bind.
  destruct (handler ctx _ req w) as [[[e|]|p] w']; try done.
  by destruct (handler_error_is_fatal env).
Qed.

(** A handler that replies to the call [id] with [result] and [err],
    on a stream that takes the response, lets the loop go on. *)
Lemma conn_Go_replied (ctx : Context) (s : Server) (req : jsonrpc2.Request)
    (rest : list jsonrpc2.Request) (id : Z) (result : Result) (err : option error)
    (w w' : Trace) :
  jsonrpc2.ID req = Some id →
  handle env s ctx (conn_replier env req) req w = conn_replier env req ctx result err w' →
  let resp := {| jsonrpc2.RespID := id; jsonrpc2.RespResult := result;
                 jsonrpc2.RespErr := err |} in
  stream_Write env w' resp = None →
  conn_Go env ctx (handle env s) (req :: rest) w =
  conn_Go env ctx (handle env s) rest (w' ++ [EvWrite resp]).
Proof.
  intros Hid Hh resp Hw. rewrite conn_Go_step, Hh.
  unfold conn_replier. rewrite Hid. fold resp. by rewrite Hw.
Qed.

Lemma round_trips_app (w1 w2 : Trace) :
  round_trips (w1 ++ w2) = round_trips w1 ++ round_trips w2.
Proof. apply omap_app. Qed.

(** The connection's replier makes no round trip. *)
Lemma conn_replier_round_trips (req : jsonrpc2.Request) (ctx : Context)
    (result : Result) (err : option error) (w : Trace) :
  round_trips (conn_replier env req ctx result err w).2 = round_trips w.
Proof.
  unfold conn_replier. destruct (jsonrpc2.ID req); [|done].
  destruct (stream_Write env w _); [done|].
  cbn. rewrite round_trips_app. cbn. by rewrite app_nil_r.
Qed.

(** Without a bridge, [handleCompletion] sends nothing and never
    succeeds. *)
Lemma handleCompletion_nil (s : Server) (params : protocol.CompletionParams) (w : Trace) :
  omnisharp s = None →
  handleCompletion env s params w =
    match json_Marshal env (omnisharpRequest env params) with
    | inl msg => (Returned (None, Some (Error FromMarshal msg)), w)
    | inr _ => (Panicked NilDereference, w)
    end.
Proof.
  intros Ho. unfold handleCompletion. rewrite Ho.
  unfold mbind, M_bind. rewrite SendRequest_nil.
  by destruct (json_Marshal env _).
Qed.

Lemma handle_nil_round_trips (s : Server) (ctx : Context) (req : jsonrpc2.Request)
    (w : Trace) :
  omnisharp s = None →
  round_trips (handle env s ctx (conn_replier env req) req w).2 = round_trips w.
Proof.
  intros Ho.
  destruct (decide (jsonrpc2.Method req = protocol.MethodInitialize)) as [Hi|Hi].
  { rewrite (handle_initialize _ _ _ _ _ Hi).
    destruct (UnmarshalTo_InitializeParams env _); [done|].
    apply conn_replier_round_trips. }
  destruct (decide (jsonrpc2.Method req = protocol.MethodTextDocumentCompletion))
    as [Hc|Hc].
  { rewrite (handle_completion _ _ _ _ _ Hc).
    destruct (UnmarshalTo_CompletionParams env _) as [|params]; [done|].
    rewrite (handleCompletion_nil _ _ _ Ho).
    destruct (json_Marshal env _); [|done].
    apply conn_replier_round_trips. }
  by rewrite handle_other.
Qed.

Lemma conn_Go_nil_round_trips (s : Server) (ctx : Context)
    (incoming : list jsonrpc2.Request) (w : Trace) :
  omnisharp s = None →
  round_trips (conn_Go env ctx (handle env s) incoming w).2 = round_trips w.
Proof.
  intros Ho. revert w. induction incoming as [|req rest IH]; intros w; [done|].
  rewrite conn_Go_step.
  pose proof (handle_nil_round_trips s ctx req w Ho) as Hh.
  destruct (handle env s ctx _ req w) as [[[e|]|p] w']; cbn in Hh.
  - destruct (handler_error_is_fatal env); [done|]. by rewrite IH.
  - by rewrite IH.
  - done.
Qed.

End Dispatch.

(** ** The reference decoder on candidate arrays *)

Section Decoder.

Lemma store_element_candidate (c : Candidate.t) :
  JSON.store_element (JSON.candidate_value c) = (c, None).
Proof. destruct c. reflexivity. Qed.

Lemma first_error_none (l : list (option string)) :
  Forall (λ e, e = None) l → fold_left JSON.first_error l None = None.
Proof. induction 1 as [|e l -> _ IH]; [done|]. exact IH. Qed.

(** An array of candidate objects is stored as those candidates. *)
Lemma store_slice_candidates (cs : list Candidate.t) :
  JSON.store_slice (JSON.Array (map JSON.candidate_value cs)) = (cs, None).
Proof.
  unfold JSON.store_slice. f_equal.
  - rewrite map_map. induction cs as [|c cs IH]; [done|].
    cbn [map]. rewrite store_element_candidate, IH. done.
  - apply first_error_none. rewrite !map_map.
    induction cs as [|c cs IH]; constructor; [|exact IH].
    by rewrite store_element_candidate.
Qed.

(** A body that reads as a JSON array of candidate objects decodes to
    those candidates. *)
Lemma Unmarshal_candidates (body : bytes) (cs : list Candidate.t) :
  JSON.parse body = Some (JSON.Array (map JSON.candidate_value cs)) →
  JSON.Unmarshal body = (cs, None).
Proof. intros Hp. unfold JSON.Unmarshal. rewrite Hp. apply store_slice_candidates. Qed.

(** A body that is not JSON, or neither an array nor null, is refused. *)
Lemma Unmarshal_refuses (body : bytes) :
  not_decodable_as_slice body →
  ∃ msg, JSON.Unmarshal body = ([], Some msg).
Proof.
  unfold JSON.Unmarshal. intros [Hp|(v & Hp & Hn & Ha)]; rewrite Hp; [by eexists|].
  destruct v as [| | | |vs|];
    first [by destruct Hn | by destruct (Ha vs) | by eexists].
Qed.

(** *** Texts of candidate arrays are read back

    What [JSON.render] writes, [JSON.parse] reads as the array of the
    candidates' objects, whatever bytes their strings hold. *)

Lemma unquote_step (c : ascii) (tail : list ascii) :
  JSON.unquote (JSON.quote_char c ++ tail) =
  '(s, q) ← JSON.unquote tail; Some (c :: s, q).
Proof. destruct c as [[] [] [] [] [] [] [] []]; reflexivity. Qed.

Lemma unquote_quote (s rest : list ascii) :
  JSON.unquote (concat (map JSON.quote_char s) ++ JSON.quote_mark :: rest) = Some (s, rest).
Proof.
  induction s as [|c s IH]; [reflexivity|].
  cbn [map concat]. rewrite <- app_assoc, unquote_step, IH. reflexivity.
Qed.

Lemma parse_value_string (f : nat) (s : string) (rest : list ascii) :
  JSON.parse_value (S f) (JSON.string_text s rest) = Some (JSON.Str s, rest).
Proof.
  unfold JSON.string_text.
  change (JSON.parse_value (S f) (JSON.quote_mark :: ?l))
    with ('(s, q) ← JSON.unquote l; Some (JSON.Str (string_of_list_ascii s), q)).
  rewrite unquote_quote. cbn. by rewrite string_of_list_ascii_of_string.
Qed.

(** A member, up to the value: the key is read, then the colon, then the
    value; what follows it decides how the object goes on. *)
Lemma parse_member (f : nat) (k v : string) (next : ascii) (more : list ascii) :
  JSON.parse_members (S (S f))
    (JSON.string_text k (":"%char :: JSON.string_text v (next :: more))) =
  match JSON.skip_space (next :: more) with
  | [] => None
  | e :: rest =>
      if Ascii.eqb e "," then
        '(ms, q) ← JSON.parse_members (S f) rest; Some ((k, JSON.Str v) :: ms, q)
      else if Ascii.eqb e "}" then Some ([(k, JSON.Str v)], rest)
      else None
  end.
Proof.
  unfold JSON.string_text at 1.
  change (JSON.parse_members (S (S f)) (JSON.quote_mark :: ?l))
    with ('(k, q) ← JSON.unquote l;
          match JSON.skip_space q with
          | [] => None
          | d :: rest' =>
              if Ascii.eqb d ":" then
                '(v, q') ← JSON.parse_value (S f) rest';
                match JSON.skip_space q' with
                | [] => None
                | e :: rest'' =>
                    if Ascii.eqb e "," then
                      '(ms, q'') ← JSON.parse_members (S f) rest'';
                      Some ((string_of_list_ascii k, v) :: ms, q'')
                    else if Ascii.eqb e "}" then
                      Some ([(string_of_list_ascii k, v)], rest'')
                    else None
                end
              else None
          end).
  rewrite unquote_quote. cbn [mbind option_bind].
  change (JSON.skip_space (":"%char :: ?l)) with (":"%char :: l). cbv iota.
  change (Ascii.eqb ":" ":") with true. cbv iota.
  rewrite parse_value_string. cbn [mbind option_bind].
  by rewrite string_of_list_ascii_of_string.
Qed.

Lemma parse_value_object (g : nat) (k : string) (l : list ascii) :
  JSON.parse_value (S g) ("{"%char :: JSON.string_text k l) =
  '(ms, q) ← JSON.parse_members g (JSON.string_text k l); Some (JSON.Object ms, q).
Proof. reflexivity. Qed.

Lemma parse_value_candidate (f : nat) (c : Candidate.t) (rest : list ascii) :
  JSON.parse_value (6 + f) (JSON.candidate_text c rest) = Some (JSON.candidate_value c, rest).
Proof.
  unfold JSON.candidate_text.
  change (6 + f)%nat with (S (S (S (3 + f)))).
  rewrite parse_value_object.
  rewrite parse_member. change (S (3 + f)) with (S (S (2 + f))).
  change (JSON.skip_space (","%char :: ?l)) with (","%char :: l). cbv iota.
  change (Ascii.eqb "," ",") with true. cbv iota.
  rewrite parse_member. change (S (2 + f)) with (S (S (1 + f))).
  change (JSON.skip_space (","%char :: ?l)) with (","%char :: l). cbv iota.
  change (Ascii.eqb "," ",") with true. cbv iota.
  rewrite parse_member. change (S (1 + f)) with (S (S f)).
  change (JSON.skip_space (","%char :: ?l)) with (","%char :: l). cbv iota.
  change (Ascii.eqb "," ",") with true. cbv iota.
  rewrite parse_member. reflexivity.
Qed.

Lemma parse_elements_candidates (cs : list Candidate.t) (k : nat) (rest : list ascii) :
  cs ≠ [] →
  JSON.parse_elements (length cs + 6 + k) (JSON.candidates_text cs rest) =
  Some (map JSON.candidate_value cs, rest).
Proof.
  induction cs as [|c cs IH]; [done|]. intros _.
  change (length (c :: cs) + 6 + k)%nat with (S (length cs + 6 + k)).
  change (JSON.parse_elements (S ?g) ?l)
    with ('(v, q) ← JSON.parse_value g l;
          match JSON.skip_space q with
          | [] => None
          | c :: rest =>
              if Ascii.eqb c "," then
                '(vs, q') ← JSON.parse_elements g rest; Some (v :: vs, q')
              else if Ascii.eqb c "]" then Some ([v], rest)
              else None
          end).
  destruct cs as [|c' cs].
  - cbn [JSON.candidates_text length].
    replace (0 + 6 + k)%nat with (6 + k)%nat by lia.
    rewrite parse_value_candidate. reflexivity.
  - change (JSON.candidates_text (c :: c' :: cs) rest)
      with (JSON.candidate_text c (","%char :: JSON.candidates_text (c' :: cs) rest)).
    replace (length (c' :: cs) + 6 + k)%nat with (6 + (length (c' :: cs) + k))%nat by lia.
    rewrite parse_value_candidate. cbn [mbind option_bind].
    change (JSON.skip_space (","%char :: ?l)) with (","%char :: l). cbv iota.
    change (Ascii.eqb "," ",") with true. cbv iota.
    replace (6 + (length (c' :: cs) + k))%nat with (length (c' :: cs) + 6 + k)%nat by lia.
    rewrite IH by done. reflexivity.
Qed.

Lemma string_text_length (s : string) (rest : list ascii) :
  (length rest + 2 ≤ length (JSON.string_text s rest))%nat.
Proof.
  unfold JSON.string_text. cbn [length]. rewrite length_app. cbn [length]. lia.
Qed.

Lemma candidate_text_length (c : Candidate.t) (rest : list ascii) :
  (length rest + 7 ≤ length (JSON.candidate_text c rest))%nat.
Proof.
  unfold JSON.candidate_text. cbn [length].
  repeat match goal with
         | H : context [length (JSON.string_text ?s ?r)] |- _ =>
             pose proof (string_text_length s r);
             generalize dependent (length (JSON.string_text s r)); intros;
             cbn [length] in *
         | |- context [length (JSON.string_text ?s ?r)] =>
             pose proof (string_text_length s r);
             generalize dependent (length (JSON.string_text s r)); intros;
             cbn [length] in *
         end.
  lia.
Qed.

Lemma candidates_text_length (cs : list Candidate.t) (rest : list ascii) :
  (7 * length cs ≤ length (JSON.candidates_text cs rest))%nat.
Proof.
  induction cs as [|c cs IH]; [cbn; lia|].
  destruct cs as [|c' cs].
  - pose proof (candidate_text_length c ("]"%char :: rest)).
    cbn [JSON.candidates_text length] in *. lia.
  - change (JSON.candidates_text (c :: c' :: cs) rest)
      with (JSON.candidate_text c (","%char :: JSON.candidates_text (c' :: cs) rest)).
    pose proof (candidate_text_length c
                  (","%char :: JSON.candidates_text (c' :: cs) rest)).
    cbn [length] in *. lia.
Qed.

Lemma parse_value_array (g : nat) (c : Candidate.t) (rest : list ascii) :
  JSON.parse_value (S g) ("["%char :: JSON.candidate_text c rest) =
  '(vs, q) ← JSON.parse_elements g (JSON.candidate_text c rest); Some (JSON.Array vs, q).
Proof. reflexivity. Qed.

Lemma parse_value_candidates (cs : list Candidate.t) (k : nat) (rest : list ascii) :
  cs ≠ [] →
  JSON.parse_value (S (length cs + 6 + k)) ("["%char :: JSON.candidates_text cs rest) =
  Some (JSON.Array (map JSON.candidate_value cs), rest).
Proof.
  intros Hne.
  assert (∃ c tail, JSON.candidates_text cs rest = JSON.candidate_text c tail)
    as (c & tail & Ht).
  { destruct cs as [|c [|c' cs]]; [done| |]; by eexists _, _. }
  rewrite Ht, parse_value_array, <- Ht, parse_elements_candidates by done.
  reflexivity.
Qed.

(** The fuel [JSON.parse] starts with is enough for the text of any list
    of candidates. *)
Lemma parse_render (cs : list Candidate.t) :
  JSON.parse (JSON.render cs) = Some (JSON.Array (map JSON.candidate_value cs)).
Proof.
  destruct cs as [|c cs]; [reflexivity|].
  unfold JSON.parse, JSON.render. rewrite list_ascii_of_string_of_list_ascii.
  pose proof (candidates_text_length (c :: cs) []) as Hl.
  set (l := JSON.candidates_text (c :: cs) []) in *.
  cbn [List.length]. cbn [length] in Hl.
  replace (2 * S (List.length l) + 2)%nat
    with (S (length (c :: cs) + 6 + (2 * List.length l - length cs - 4)))%nat
    by (cbn [length]; lia).
  unfold l. rewrite parse_value_candidates by done. reflexivity.
Qed.

(** Round trip: the text of a list of candidates decodes to that list. *)
Lemma Unmarshal_render (cs : list Candidate.t) :
  JSON.Unmarshal (JSON.render cs) = (cs, None).
Proof. apply Unmarshal_candidates, parse_render. Qed.

End Decoder.

(** ** When a round trip is made *)

Section RoundTrips.

Context (env : Env).

Lemma round_trips_no_more (w : Trace) (req : http.Request) :
  round_trips w ≠ round_trips w ++ [req].
Proof.
  intros H. apply (f_equal length) in H. rewrite length_app in H. cbn in H. lia.
Qed.

(** [SendRequest] either has all it needs to send, or leaves the trace as
    it was. *)
Lemma SendRequest_cases (o : option OmniSharpClient) (endpoint : string)
    (request : gmap string iface) (w : Trace) :
  (∃ o' jsonData, o = Some o' ∧ client o' = Some http.DefaultClient ∧
                  json_Marshal env request = inr jsonData ∧
                  url_Parse env (baseURL o' +:+ endpoint) = None) ∨
  (SendRequest env o endpoint request w).2 = w.
Proof.
  unfold SendRequest, http_NewRequest, http_Do.
  destruct (json_Marshal env request) as [msg|jsonData]; [by right|].
  destruct o as [o'|]; [|by right].
  unfold mbind, M_bind, deref, mret, M_ret.
  destruct (url_Parse env (baseURL o' +:+ endpoint)) as [msg|] eqn:Hu; [by right|].
  destruct (client o') as [[]|] eqn:Hc; [|by right].
  left. by exists o', jsonData.
Qed.

(** If [SendRequest] sends [req], the bridge was set up and [req] is the
    POST of the serialised request. *)
Lemma SendRequest_sends (o : option OmniSharpClient) (endpoint : string)
    (request : gmap string iface) (w : Trace) (req : http.Request) :
  round_trips (SendRequest env o endpoint request w).2 = round_trips w ++ [req] →
  ∃ o' jsonData, o = Some o' ∧ client o' = Some http.DefaultClient ∧
                 json_Marshal env request = inr jsonData ∧
                 url_Parse env (baseURL o' +:+ endpoint) = None ∧
                 req = json_post (baseURL o' +:+ endpoint) jsonData.
Proof.
  intros Hs.
  destruct (SendRequest_cases o endpoint request w)
    as [(o' & jsonData & -> & Hc & Hm & Hu)|Hw].
  - exists o', jsonData. repeat (split; [done|]).
    rewrite (SendRequest_run env o' endpoint request jsonData w Hc Hm Hu) in Hs.
    cbn zeta in Hs.
    destruct (RoundTrip env w _); cbn [snd] in Hs; rewrite round_trips_app in Hs;
      apply app_inv_head in Hs; cbn in Hs; congruence.
  - rewrite Hw in Hs. by destruct (round_trips_no_more w req).
Qed.

(** [handleCompletion] makes no round trip of its own: its trace is that of
    its call to [SendRequest]. *)
Lemma handleCompletion_trace (s : Server) (params : protocol.CompletionParams) (w : Trace) :
  (handleCompletion env s params w).2 =
  (SendRequest env (omnisharp s) "/autocomplete" (omnisharpRequest env params) w).2.
Proof.
  unfold handleCompletion, mbind, M_bind.
  destruct (SendRequest env _ _ _ w) as [[[response [err|]]|p] w']; try done.
  by destruct (json_Unmarshal env response) as [cs [msg|]].
Qed.

(** If [handleCompletion] sends [req], the bridge of the server is ready
    and [req] is the POST of the contract. *)
Lemma handleCompletion_sends (s : Server) (params : protocol.CompletionParams)
    (w : Trace) (req : http.Request) :
  round_trips (handleCompletion env s params w).2 = round_trips w ++ [req] →
  ∃ o jsonData, bridge_ready env s o params jsonData ∧ req = autocomplete_post o jsonData.
Proof.
  rewrite handleCompletion_trace. intros Hs.
  destruct (SendRequest_sends _ _ _ _ _ Hs) as (o & jsonData & Ho & Hc & Hm & Hu & ->).
  by exists o, jsonData.
Qed.

End RoundTrips.

(** ** Completion *)

(** C1.  When the backend answers a completion request with a body that is
    a JSON array of the candidates [cs], [handleCompletion] returns a
    completion list that is not incomplete and has one item per candidate,
    in the same order: item [i] has the label, detail, insert text and
    converted kind of candidate [i]. *)
Theorem handleCompletion_maps_candidates (env : Env) (s : Server)
    (params : protocol.CompletionParams) (w : Trace) (req : http.Request)
    (resp : http.Response) (cs : list Candidate.t) :
  backend_answers env s params w req (inr resp) →
  answers_candidates env resp cs →
  let items := map item_of cs in
  handleCompletion env s params w =
    (Returned (Some {| protocol.IsIncomplete := false; protocol.Items := items |}, None),
     w ++ [EvRoundTrip req; EvBodyClose]) ∧
  length items = length cs ∧
  ∀ (i : nat) (c : Candidate.t), cs !! i = Some c →
    items !! i = Some {| protocol.Label := Candidate.DisplayText c;
                         protocol.Detail := Candidate.Documentation c;
                         protocol.Kind := convertKind (Candidate.Kind c);
                         protocol.InsertText := Candidate.CompletionText c |}.
Proof.
  intros [Hs Hrt] [Hread Hdec] items.
  destruct (handleCompletion_sends env s params w req Hs) as (o & jsonData & Hready & ->).
  split; [|split].
  - rewrite (handleCompletion_run env s o params jsonData w Hready). cbn zeta.
    by rewrite Hrt, Hread, Hdec.
  - apply length_map.
  - intros i c Hi. subst items.
    change (map item_of cs) with (item_of <$> cs).
    by rewrite list_lookup_fmap, Hi.
Qed.

(** The stub backend of section 8: one candidate in, one item out. *)
Lemma handleCompletion_maps_candidates_witness :
  handleCompletion (stub_env (answering 200 stub_body)) stub_server stub_params [] =
    (Returned
       (Some {| protocol.IsIncomplete := false;
                protocol.Items :=
                  [{| protocol.Label := "Bar()"; protocol.Detail := "doc";
                      protocol.Kind := protocol.CompletionItemKindMethod;
                      protocol.InsertText := "Bar" |}] |},
        None),
     [EvRoundTrip
        (autocomplete_post (NewOmniSharpClient "http://localhost:2000") stub_query_json);
      EvBodyClose]).
Proof.
  assert (Hback : backend_answers (stub_env (answering 200 stub_body)) stub_server
                    stub_params []
                    (autocomplete_post (NewOmniSharpClient "http://localhost:2000")
                       stub_query_json)
                    (inr {| http.StatusCode := 200;
                            http.Body := {| http.content := stub_body;
                                            http.failure := None |} |})).
  { split; vm_compute; reflexivity. }
  assert (Hans : answers_candidates (stub_env (answering 200 stub_body))
                   {| http.StatusCode := 200;
                      http.Body := {| http.content := stub_body; http.failure := None |} |}
                   [stub_candidate]).
  { split; vm_compute; reflexivity. }
  exact (proj1 (handleCompletion_maps_candidates _ _ _ _ _ _ _ Hback Hans)).
Defined.

(** The bridge of the stub server is ready, whatever the backend. *)
Lemma stub_bridge_ready (backend : Trace → http.Request → string + http.Response) :
  bridge_ready (stub_env backend) stub_server
    (NewOmniSharpClient "http://localhost:2000") stub_params stub_query_json.
Proof. repeat split; vm_compute; reflexivity. Qed.

(** The answer of the stub backend is the text of its one candidate. *)
Example stub_body_is_rendered : JSON.render [stub_candidate] = stub_body.
Proof. vm_compute. reflexivity. Qed.

(** The same for every list of candidates: when the stub backend answers
    with the JSON array of [cs], the items are those of [cs], in order. *)
Lemma stub_backend_maps_candidates (cs : list Candidate.t) :
  handleCompletion (stub_env (answering 200 (JSON.render cs))) stub_server stub_params [] =
    (Returned (Some {| protocol.IsIncomplete := false;
                       protocol.Items := map item_of cs |}, None),
     [EvRoundTrip
        (autocomplete_post (NewOmniSharpClient "http://localhost:2000") stub_query_json);
      EvBodyClose]).
Proof.
  rewrite (handleCompletion_run _ _ _ _ _ [] (stub_bridge_ready _)). cbn zeta.
  cbn [RoundTrip stub_env answering http.failure http.Body http.content json_Unmarshal].
  by rewrite Unmarshal_render.
Qed.

(** On a server whose bridge is ready, a completion request makes exactly
    one HTTP round trip: a POST to [baseURL/autocomplete] with content type
    [application/json], whose body is the serialisation of the map of [Line],
    [Column] and [FileName]; and when the round trip and the read succeed,
    [SendRequest] returns the body of the response as it is. *)
Lemma bridge_posts_once (env : Env) (s : Server) (o : OmniSharpClient)
    (params : protocol.CompletionParams) (jsonData : bytes) (w : Trace) :
  bridge_ready env s o params jsonData →
  let request := omnisharpRequest env params in
  let req := autocomplete_post o jsonData in
  (request !! "Line" = Some (IUint32 (protocol.Line (protocol.Position_ params))) ∧
   request !! "Column" = Some (IUint32 (protocol.Character (protocol.Position_ params))) ∧
   request !! "FileName" =
     Some (IString (Filename env (protocol.URI (protocol.TextDocument params)))) ∧
   dom request = ({["Line"; "Column"; "FileName"]} : gset string) ∧
   json_Marshal env request = inr jsonData) ∧
  (http.Method req = "POST" ∧
   http.URL req = baseURL o +:+ "/autocomplete" ∧
   http.Header req !! "Content-Type" = Some "application/json" ∧
   http.ReqBody req = jsonData) ∧
  round_trips (SendRequest env (omnisharp s) "/autocomplete" request w).2 =
    round_trips w ++ [req] ∧
  round_trips (handleCompletion env s params w).2 = round_trips w ++ [req] ∧
  ∀ (resp : http.Response),
    RoundTrip env w req = inr resp →
    http.failure (http.Body resp) = None →
    SendRequest env (omnisharp s) "/autocomplete" request w =
      (Returned (http.content (http.Body resp), None), w ++ [EvRoundTrip req; EvBodyClose]).
Proof.
  intros Hready request req.
  pose proof Hready as (Ho & Hc & Hm & Hu).
  assert (Hsend : SendRequest env (omnisharp s) "/autocomplete" request w =
            match RoundTrip env w req with
            | inl msg => (Returned ("", Some (Error FromDo msg)), w ++ [EvRoundTrip req])
            | inr resp => (Returned (ioutil.ReadAll (http.Body resp)),
                           w ++ [EvRoundTrip req; EvBodyClose])
            end).
  { rewrite Ho. exact (SendRequest_run env o "/autocomplete" request jsonData w Hc Hm Hu). }
  assert (Hone : round_trips (SendRequest env (omnisharp s) "/autocomplete" request w).2 =
                 round_trips w ++ [req]).
  { rewrite Hsend. destruct (RoundTrip env w req); cbn [snd]; by rewrite round_trips_app. }
  split; [|split; [|split; [|split]]].
  - subst request. unfold omnisharpRequest.
    split; [apply lookup_insert_eq|].
    split; [rewrite lookup_insert_ne by done; apply lookup_insert_eq|].
    split; [rewrite !lookup_insert_ne by done; apply lookup_insert_eq|].
    split; [|done].
    rewrite !dom_insert_L, dom_empty_L. set_solver.
  - subst req. unfold autocomplete_post, json_post. cbn.
    split; [done|]. split; [done|]. split; [apply lookup_insert_eq|done].
  - exact Hone.
  - by rewrite handleCompletion_trace.
  - intros resp Hrt Hread. rewrite Hsend, Hrt. unfold ioutil.ReadAll. by rewrite Hread.
Qed.

(** On the stub server the one round trip is the POST of the query of
    section 8. *)
Example bridge_posts_once_on_stub :
  round_trips (handleCompletion (stub_env (answering 200 stub_body)) stub_server
                 stub_params []).2 =
  [autocomplete_post (NewOmniSharpClient "http://localhost:2000") stub_query_json].
Proof.
  exact (proj1 (proj2 (proj2 (proj2
    (bridge_posts_once (stub_env (answering 200 stub_body)) stub_server
       (NewOmniSharpClient "http://localhost:2000") stub_params stub_query_json []
       (stub_bridge_ready (answering 200 stub_body))))))).
Qed.

(** C8 fails on the program as [main] starts it: whatever messages come
    in, no HTTP request is ever sent; on the stub environment the completion
    request of section 8 ends the process with a nil dereference and an
    empty trace, where the claim expects one POST. *)
Theorem main_posts_nothing :
  (∀ (env : Env) (incoming : list jsonrpc2.Request),
     round_trips (main env incoming).2 = []) ∧
  main (stub_env (answering 200 stub_body)) [stub_request] = (Crash NilDereference, []) ∧
  round_trips (handleCompletion (stub_env (answering 200 stub_body))
                 (Start (stub_env (answering 200 stub_body)) main_server [stub_request]).1
                 stub_params []).2 = [].
Proof.
  split; [|split; vm_compute; reflexivity].
  intros env incoming. unfold main.
  pose proof (conn_Go_nil_round_trips env (Start env main_server incoming).1
                context_Background incoming [] eq_refl) as H.
  cbn [Start fst snd] in *.
  destruct (conn_Go env _ _ incoming []) as [[[e|]|p] w']; exact H.
Qed.

(** ** Failures of one request *)

Section OneRequest.

Context (env : Env).

(** A completion call whose handler comes back with the error [e]: the
    replier is invoked once, with no result and [e]; on the connection the
    error response is written and the loop goes on with the next message. *)
Lemma failed_completion_is_answered (s : Server) (params : protocol.CompletionParams)
    (e : error) (w w' : Trace) :
  handleCompletion env s params w = (Returned (None, Some e), w') →
  (∀ (ctx : Context) (reply : Replier) (req : jsonrpc2.Request),
     jsonrpc2.Method req = protocol.MethodTextDocumentCompletion →
     UnmarshalTo_CompletionParams env (jsonrpc2.Params req) = inr params →
     handle env s ctx reply req w = reply ctx (ResultCompletion None) (Some e) w') ∧
  (∀ (req : jsonrpc2.Request) (id : Z) (rest : list jsonrpc2.Request),
     jsonrpc2.ID req = Some id →
     jsonrpc2.Method req = protocol.MethodTextDocumentCompletion →
     UnmarshalTo_CompletionParams env (jsonrpc2.Params req) = inr params →
     let resp := {| jsonrpc2.RespID := id;
                    jsonrpc2.RespResult := ResultCompletion None;
                    jsonrpc2.RespErr := Some e |} in
     stream_Write env w' resp = None →
     conn_Go env context_Background (handle env s) (req :: rest) w =
     conn_Go env context_Background (handle env s) rest (w' ++ [EvWrite resp])).
Proof.
  intros Hh.
  assert (Hreply : ∀ ctx reply req,
    jsonrpc2.Method req = protocol.MethodTextDocumentCompletion →
    UnmarshalTo_CompletionParams env (jsonrpc2.Params req) = inr params →
    handle env s ctx reply req w = reply ctx (ResultCompletion None) (Some e) w').
  { intros ctx reply req Hm Hp.
    by rewrite (handle_completion env s ctx reply req w Hm), Hp, Hh. }
  split; [exact Hreply|].
  intros req id rest Hid Hm Hp resp Hw.
  exact (conn_Go_replied env context_Background s req rest id (ResultCompletion None)
           (Some e) w w' Hid (Hreply _ _ req Hm Hp) Hw).
Qed.

End OneRequest.

(** C4.  When the round trip to the backend fails, [handleCompletion]
    returns the transport error and no list; [handle] passes it to the
    replier, so the peer gets an error response to that call, nothing
    panics, and the connection goes on with the messages that follow. *)
Theorem unreachable_backend_fails_one_request (env : Env) (s : Server)
    (params : protocol.CompletionParams) (w : Trace) (req : http.Request)
    (msg : string) :
  backend_answers env s params w req (inl msg) →
  let e := Error FromDo msg in
  let w' := w ++ [EvRoundTrip req] in
  handleCompletion env s params w = (Returned (None, Some e), w') ∧
  classify e = TransportError ∧
  (∀ (ctx : Context) (reply : Replier) (call : jsonrpc2.Request),
     jsonrpc2.Method call = protocol.MethodTextDocumentCompletion →
     UnmarshalTo_CompletionParams env (jsonrpc2.Params call) = inr params →
     handle env s ctx reply call w = reply ctx (ResultCompletion None) (Some e) w') ∧
  (∀ (call : jsonrpc2.Request) (id : Z) (rest : list jsonrpc2.Request),
     jsonrpc2.ID call = Some id →
     jsonrpc2.Method call = protocol.MethodTextDocumentCompletion →
     UnmarshalTo_CompletionParams env (jsonrpc2.Params call) = inr params →
     let resp := {| jsonrpc2.RespID := id;
                    jsonrpc2.RespResult := ResultCompletion None;
                    jsonrpc2.RespErr := Some e |} in
     stream_Write env w' resp = None →
     conn_Go env context_Background (handle env s) (call :: rest) w =
     conn_Go env context_Background (handle env s) rest (w' ++ [EvWrite resp])).
Proof.
  intros [Hs Hrt] e w'.
  destruct (handleCompletion_sends env s params w req Hs) as (o & jsonData & Hready & ->).
  assert (Hh : handleCompletion env s params w = (Returned (None, Some e), w')).
  { rewrite (handleCompletion_run env s o params jsonData w Hready). cbn zeta.
    by rewrite Hrt. }
  split; [exact Hh|]. split; [reflexivity|].
  exact (failed_completion_is_answered env s params e w w' Hh).
Qed.

(** With the backend down, one call is answered with the error and the
    call after it is served as well. *)
Lemma unreachable_backend_fails_one_request_witness :
  let e := Error FromDo "dial tcp 127.0.0.1:2000: connect: connection refused" in
  let post :=
    autocomplete_post (NewOmniSharpClient "http://localhost:2000") stub_query_json in
  let resp := {| jsonrpc2.RespID := 1; jsonrpc2.RespResult := ResultCompletion None;
                 jsonrpc2.RespErr := Some e |} in
  handleCompletion (stub_env unreachable) stub_server stub_params [] =
    (Returned (None, Some e), [EvRoundTrip post]) ∧
  conn_Go (stub_env unreachable) context_Background
    (handle (stub_env unreachable) stub_server) [stub_request; stub_request] [] =
  conn_Go (stub_env unreachable) context_Background
    (handle (stub_env unreachable) stub_server) [stub_request]
    [EvRoundTrip post; EvWrite resp].
Proof.
  assert (Hback : backend_answers (stub_env unreachable) stub_server stub_params []
                    (autocomplete_post (NewOmniSharpClient "http://localhost:2000")
                       stub_query_json)
                    (inl "dial tcp 127.0.0.1:2000: connect: connection refused")).
  { split; vm_compute; reflexivity. }
  pose proof (unreachable_backend_fails_one_request _ _ _ _ _ _ Hback) as H.
  split; [exact (proj1 H)|].
  refine (proj2 (proj2 (proj2 H)) stub_request 1%Z [stub_request] eq_refl eq_refl _ eq_refl).
  vm_compute. reflexivity.
Defined.

(** C5, as amended.  When the backend's body is not JSON, or is a JSON
    value that is neither an array nor null, [handleCompletion] returns the
    decode error and no list; [handle] passes it to the replier, so the
    peer gets an error response to that call, nothing panics, and the
    connection goes on with the messages that follow. *)
Theorem undecodable_body_fails_one_request (env : Env) (s : Server)
    (params : protocol.CompletionParams) (w : Trace) (req : http.Request)
    (resp : http.Response) :
  backend_answers env s params w req (inr resp) →
  http.failure (http.Body resp) = None →
  json_Unmarshal env (http.content (http.Body resp)) =
    JSON.Unmarshal (http.content (http.Body resp)) →
  not_decodable_as_slice (http.content (http.Body resp)) →
  ∃ msg : string,
    let e := Error FromUnmarshal msg in
    let w' := w ++ [EvRoundTrip req; EvBodyClose] in
    handleCompletion env s params w = (Returned (None, Some e), w') ∧
    classify e = DecodeError ∧
    (∀ (ctx : Context) (reply : Replier) (call : jsonrpc2.Request),
       jsonrpc2.Method call = protocol.MethodTextDocumentCompletion →
       UnmarshalTo_CompletionParams env (jsonrpc2.Params call) = inr params →
       handle env s ctx reply call w = reply ctx (ResultCompletion None) (Some e) w') ∧
    (∀ (call : jsonrpc2.Request) (id : Z) (rest : list jsonrpc2.Request),
       jsonrpc2.ID call = Some id →
       jsonrpc2.Method call = protocol.MethodTextDocumentCompletion →
       UnmarshalTo_CompletionParams env (jsonrpc2.Params call) = inr params →
       let answer := {| jsonrpc2.RespID := id;
                        jsonrpc2.RespResult := ResultCompletion None;
                        jsonrpc2.RespErr := Some e |} in
       stream_Write env w' answer = None →
       conn_Go env context_Background (handle env s) (call :: rest) w =
       conn_Go env context_Background (handle env s) rest (w' ++ [EvWrite answer])).
Proof.
  intros [Hs Hrt] Hread Hdec Hbad.
  destruct (handleCompletion_sends env s params w req Hs) as (o & jsonData & Hready & ->).
  destruct (Unmarshal_refuses _ Hbad) as [msg Hmsg].
  exists msg. intros e w'.
  assert (Hh : handleCompletion env s params w = (Returned (None, Some e), w')).
  { rewrite (handleCompletion_run env s o params jsonData w Hready). cbn zeta.
    by rewrite Hrt, Hread, Hdec, Hmsg. }
  split; [exact Hh|]. split; [reflexivity|].
  exact (failed_completion_is_answered env s params e w w' Hh).
Qed.

(** A backend that answers with a web page instead of JSON. *)
Lemma undecodable_body_fails_one_request_witness :
  ∃ msg : string,
    handleCompletion (stub_env (answering 200 "<html>")) stub_server stub_params [] =
      (Returned (None, Some (Error FromUnmarshal msg)),
       [EvRoundTrip
          (autocomplete_post (NewOmniSharpClient "http://localhost:2000") stub_query_json);
        EvBodyClose]).
Proof.
  assert (Hback : backend_answers (stub_env (answering 200 "<html>")) stub_server
                    stub_params []
                    (autocomplete_post (NewOmniSharpClient "http://localhost:2000")
                       stub_query_json)
                    (inr {| http.StatusCode := 200;
                            http.Body := {| http.content := "<html>";
                                            http.failure := None |} |})).
  { split; vm_compute; reflexivity. }
  assert (Hbad : not_decodable_as_slice "<html>") by (left; vm_compute; reflexivity).
  destruct (undecodable_body_fails_one_request _ _ _ _ _ _ Hback eq_refl eq_refl Hbad)
    as [msg H].
  exists msg. exact (proj1 H).
Defined.

(** C5, as stated, fails: the body [null] is JSON and is not an array, and
    the handler answers it with an empty completion list and no error. *)
Lemma null_body_is_accepted :
  not_a_json_array "null" ∧
  handleCompletion (stub_env (answering 200 "null")) stub_server stub_params [] =
    (Returned (Some {| protocol.IsIncomplete := false; protocol.Items := [] |}, None),
     [EvRoundTrip
        (autocomplete_post (NewOmniSharpClient "http://localhost:2000") stub_query_json);
      EvBodyClose]) ∧
  ¬ every_non_array_is_a_decode_error.
Proof.
  assert (Hnull : not_a_json_array "null").
  { right. exists JSON.Null. split; [vm_compute; reflexivity|]. intros vs; discriminate. }
  assert (Hrun : handleCompletion (stub_env (answering 200 "null")) stub_server
                   stub_params [] =
    (Returned (Some {| protocol.IsIncomplete := false; protocol.Items := [] |}, None),
     [EvRoundTrip
        (autocomplete_post (NewOmniSharpClient "http://localhost:2000") stub_query_json);
      EvBodyClose])).
  { vm_compute. reflexivity. }
  split; [exact Hnull|]. split; [exact Hrun|].
  intros Hclaim. destruct (Hclaim "null" Hnull) as (e & w' & Heq & _).
  rewrite Hrun in Heq. discriminate.
Qed.

(** An answered call returns what reading the body gives, and closes the
    body. *)
Lemma SendRequest_answered (env : Env) (o : option OmniSharpClient)
    (endpoint : string) (request : gmap string iface) (w : Trace)
    (req : http.Request) (resp : http.Response) :
  bridge_answers env o endpoint request w req (inr resp) →
  SendRequest env o endpoint request w =
    (Returned (ioutil.ReadAll (http.Body resp)), w ++ [EvRoundTrip req; EvBodyClose]).
Proof.
  intros [Hs Hrt].
  destruct (SendRequest_sends env o endpoint request w req Hs)
    as (o' & jsonData & -> & Hc & Hm & Hu & ->).
  rewrite (SendRequest_run env o' endpoint request jsonData w Hc Hm Hu). cbn zeta.
  by rewrite Hrt.
Qed.

(** C10.  [SendRequest] does not look at the status code: whatever response
    the backend answers with, the result is what reading its body gives, so
    a body that is read to its end is returned with a nil error whatever the
    status, and two answered calls whose responses carry the same body
    return the same value; a body that does not decode then makes
    [handleCompletion] fail with a decode error, not a transport error. *)
Theorem SendRequest_ignores_status (env : Env) (o : option OmniSharpClient)
    (endpoint : string) (request : gmap string iface) (w : Trace)
    (req : http.Request) (resp : http.Response) :
  bridge_answers env o endpoint request w req (inr resp) →
  SendRequest env o endpoint request w =
    (Returned (ioutil.ReadAll (http.Body resp)), w ++ [EvRoundTrip req; EvBodyClose]) ∧
  (http.failure (http.Body resp) = None →
   SendRequest env o endpoint request w =
     (Returned (http.content (http.Body resp), None),
      w ++ [EvRoundTrip req; EvBodyClose])) ∧
  (∀ (env' : Env) (o' : option OmniSharpClient) (endpoint' : string)
     (request' : gmap string iface) (w' : Trace) (req' : http.Request)
     (resp' : http.Response),
     bridge_answers env' o' endpoint' request' w' req' (inr resp') →
     http.Body resp' = http.Body resp →
     (SendRequest env' o' endpoint' request' w').1 =
     (SendRequest env o endpoint request w).1) ∧
  (∀ (s : Server) (params : protocol.CompletionParams) (cs : list Candidate.t)
     (msg : string),
     omnisharp s = o → endpoint = "/autocomplete" →
     request = omnisharpRequest env params →
     http.failure (http.Body resp) = None →
     json_Unmarshal env (http.content (http.Body resp)) = (cs, Some msg) →
     handleCompletion env s params w =
       (Returned (None, Some (Error FromUnmarshal msg)),
        w ++ [EvRoundTrip req; EvBodyClose]) ∧
     classify (Error FromUnmarshal msg) = DecodeError).
Proof.
  intros Hans.
  pose proof (SendRequest_answered env o endpoint request w req resp Hans) as Hrun.
  split; [exact Hrun|]. split; [|split].
  - intros Hread. rewrite Hrun. unfold ioutil.ReadAll. by rewrite Hread.
  - intros env' o' endpoint' request' w' req' resp' Hans' Hbody.
    rewrite Hrun, (SendRequest_answered env' o' endpoint' request' w' req' resp' Hans').
    cbn [fst]. by rewrite Hbody.
  - intros s params cs msg Ho -> -> Hread Hdec. split; [|reflexivity].
    destruct Hans as [Hs Hrt].
    destruct (SendRequest_sends env o _ _ w req Hs)
      as (o' & jsonData & -> & Hc & Hm & Hu & ->).
    assert (Hready : bridge_ready env s o' params jsonData) by done.
    rewrite (handleCompletion_run env s o' params jsonData w Hready). cbn zeta.
    unfold autocomplete_post. by rewrite Hrt, Hread, Hdec.
Qed.

(** A backend that answers 500 with a text: the text comes back as a
    success of [SendRequest]. *)
Lemma SendRequest_ignores_status_witness :
  SendRequest (stub_env (answering 500 "Internal Server Error"))
    (Some (NewOmniSharpClient "http://localhost:2000")) "/autocomplete"
    (omnisharpRequest (stub_env (answering 500 "Internal Server Error")) stub_params) [] =
  (Returned ("Internal Server Error", None),
   [EvRoundTrip (autocomplete_post (NewOmniSharpClient "http://localhost:2000")
                   stub_query_json);
    EvBodyClose]).
Proof.
  assert (Hback : bridge_answers (stub_env (answering 500 "Internal Server Error"))
                    (Some (NewOmniSharpClient "http://localhost:2000")) "/autocomplete"
                    (omnisharpRequest (stub_env (answering 500 "Internal Server Error"))
                       stub_params) []
                    (autocomplete_post (NewOmniSharpClient "http://localhost:2000")
                       stub_query_json)
                    (inr {| http.StatusCode := 500;
                            http.Body := {| http.content := "Internal Server Error";
                                            http.failure := None |} |})).
  { split; vm_compute; reflexivity. }
  exact (proj1 (proj2 (SendRequest_ignores_status _ _ _ _ _ _ _ Hback)) eq_refl).
Defined.

(** ** Dispatch *)

(** C7.  A message whose method is neither [initialize] nor
    [textDocument/completion] is dropped: whatever the replier is, [handle]
    returns no error and leaves the trace as it was, so the replier was not
    invoked and nothing was sent. *)
Theorem unknown_method_is_ignored (env : Env) (s : Server) (ctx : Context)
    (reply : Replier) (req : jsonrpc2.Request) (w : Trace) :
  jsonrpc2.Method req ≠ protocol.MethodInitialize →
  jsonrpc2.Method req ≠ protocol.MethodTextDocumentCompletion →
  handle env s ctx reply req w = (Returned None, w).
Proof. apply handle_other. Qed.

(** A hover request, handed to a replier that would panic if it were
    invoked. *)
Lemma unknown_method_is_ignored_witness :
  handle (stub_env unreachable) stub_server context_Background
    (λ _ _ _, panic NilDereference)
    {| jsonrpc2.ID := Some 7%Z; jsonrpc2.Method := "textDocument/hover";
       jsonrpc2.Params := "{}" |} [] =
  (Returned None, []).
Proof.
  apply (unknown_method_is_ignored (stub_env unreachable) stub_server);
    cbn; unfold protocol.MethodInitialize, protocol.MethodTextDocumentCompletion;
    discriminate.
Defined.

(** ** The program as [main] starts it *)

(** C3.  [main] builds a server without a bridge and nothing sets one: the
    field is nil before and after [Start].  So no run of the program makes
    an HTTP round trip, no completion ever succeeds, and a completion request
    whose parameters decode and whose query serialises panics on the nil
    bridge inside [SendRequest], which ends the process. *)
Theorem main_never_reaches_backend (env : Env) :
  omnisharp main_server = None ∧
  (∀ incoming : list jsonrpc2.Request,
     omnisharp (Start env main_server incoming).1 = None) ∧
  (∀ incoming : list jsonrpc2.Request, round_trips (main env incoming).2 = []) ∧
  (∀ (incoming : list jsonrpc2.Request) (params : protocol.CompletionParams) (w : Trace),
     (handleCompletion env (Start env main_server incoming).1 params w).2 = w ∧
     ∀ l e, (handleCompletion env (Start env main_server incoming).1 params w).1
            ≠ Returned (Some l, e)) ∧
  (∀ (incoming : list jsonrpc2.Request) (params : protocol.CompletionParams)
     (jsonData : bytes) (w : Trace),
     json_Marshal env (omnisharpRequest env params) = inr jsonData →
     SendRequest env (omnisharp (Start env main_server incoming).1) "/autocomplete"
       (omnisharpRequest env params) w = (Panicked NilDereference, w) ∧
     handleCompletion env (Start env main_server incoming).1 params w =
       (Panicked NilDereference, w)) ∧
  (∀ (req : jsonrpc2.Request) (rest : list jsonrpc2.Request)
     (params : protocol.CompletionParams) (jsonData : bytes),
     jsonrpc2.Method req = protocol.MethodTextDocumentCompletion →
     UnmarshalTo_CompletionParams env (jsonrpc2.Params req) = inr params →
     json_Marshal env (omnisharpRequest env params) = inr jsonData →
     main env (req :: rest) = (Crash NilDereference, [])).
Proof.
  split; [reflexivity|]. split; [reflexivity|]. split; [|split; [|split]].
  - intros incoming. unfold main.
    pose proof (conn_Go_nil_round_trips env (Start env main_server incoming).1
                  context_Background incoming [] eq_refl) as H.
    cbn [Start fst snd] in *.
    destruct (conn_Go env _ _ incoming []) as [[[e|]|p] w']; exact H.
  - intros incoming params w.
    assert (Ho : omnisharp (Start env main_server incoming).1 = None) by reflexivity.
    rewrite (handleCompletion_nil env _ params w Ho).
    destruct (json_Marshal env _); split; try done.
  - intros incoming params jsonData w Hm.
    assert (Ho : omnisharp (Start env main_server incoming).1 = None) by reflexivity.
    split.
    + by rewrite Ho, SendRequest_nil, Hm.
    + by rewrite (handleCompletion_nil env _ params w Ho), Hm.
  - intros req rest params jsonData Hmeth Hp Hm. unfold main.
    assert (Ho : omnisharp (Start env main_server (req :: rest)).1 = None) by reflexivity.
    cbn [Start fst snd] in *. rewrite conn_Go_step.
    rewrite (handle_completion env _ _ _ req [] Hmeth), Hp.
    by rewrite (handleCompletion_nil env _ params [] Ho), Hm.
Qed.

(** On the stub environment, with a backend that would answer: the first
    completion request ends the process before anything is sent. *)
Lemma main_never_reaches_backend_witness :
  main (stub_env (answering 200 stub_body)) [stub_request; stub_request] =
  (Crash NilDereference, []).
Proof.
  refine (proj2 (proj2 (proj2 (proj2 (proj2
            (main_never_reaches_backend (stub_env (answering 200 stub_body)))))))
            stub_request [stub_request] stub_params stub_query_json eq_refl _ _);
    vm_compute; reflexivity.
Defined.

(** * More of main.go *)

(** ** Every path of [SendRequest] and [handleCompletion] *)

Section Paths.

Context (env : Env).

(** [SendRequest], path by path, in the order of the source. *)
Lemma SendRequest_paths (o : option OmniSharpClient) (endpoint : string)
    (request : gmap string iface) (w : Trace) :
  SendRequest env o endpoint request w =
    match json_Marshal env request with
    | inl msg => (Returned ("", Some (Error FromMarshal msg)), w)
    | inr jsonData =>
        match o with
        | None => (Panicked NilDereference, w)
        | Some o' =>
            match url_Parse env (baseURL o' +:+ endpoint) with
            | Some msg => (Returned ("", Some (Error FromNewRequest msg)), w)
            | None =>
                match client o' with
                | None => (Panicked NilDereference, w)
                | Some _ =>
                    let req := json_post (baseURL o' +:+ endpoint) jsonData in
                    match RoundTrip env w req with
                    | inl msg =>
                        (Returned ("", Some (Error FromDo msg)), w ++ [EvRoundTrip req])
                    | inr resp =>
                        (Returned (ioutil.ReadAll (http.Body resp)),
                         w ++ [EvRoundTrip req; EvBodyClose])
                    end
                end
            end
        end
    end.
Proof.
  destruct (json_Marshal env request) as [msg|jsonData] eqn:Hm.
  { unfold SendRequest. by rewrite Hm. }
  destruct o as [o'|]; [|by rewrite SendRequest_nil, Hm].
  destruct (url_Parse env (baseURL o' +:+ endpoint)) as [msg|] eqn:Hu.
  { unfold SendRequest, http_NewRequest. rewrite Hm.
    unfold mbind, M_bind, deref, mret, M_ret. by rewrite Hu. }
  destruct (client o') as [[]|] eqn:Hc.
  - by rewrite (SendRequest_run env o' endpoint request jsonData w Hc Hm Hu).
  - unfold SendRequest, http_NewRequest, http_Do. rewrite Hm.
    unfold mbind, M_bind, deref, mret, M_ret. by rewrite Hu, Hc.
Qed.

(** [handleCompletion], path by path. *)
Lemma handleCompletion_paths (s : Server) (params : protocol.CompletionParams) (w : Trace) :
  handleCompletion env s params w =
    match SendRequest env (omnisharp s) "/autocomplete" (omnisharpRequest env params) w with
    | (Panicked p, w') => (Panicked p, w')
    | (Returned (_, Some err), w') => (Returned (None, Some err), w')
    | (Returned (response, None), w') =>
        match json_Unmarshal env response with
        | (_, Some msg) => (Returned (None, Some (Error FromUnmarshal msg)), w')
        | (cs, None) =>
            (Returned (Some {| protocol.IsIncomplete := false;
                               protocol.Items := map item_of cs |}, None), w')
        end
    end.
Proof.
  unfold handleCompletion, mbind, M_bind.
  destruct (SendRequest env _ _ _ w) as [[[response [err|]]|p] w']; try done.
  destruct (json_Unmarshal env response) as [cs [msg|]]; [done|].
  by rewrite fill_items_map.
Qed.

End Paths.

(** X1.  On a bridge with an HTTP client, a request that serialises and a
    URL that parses, [SendRequest] makes exactly one round trip, for any
    endpoint: a POST to the base URL followed by the endpoint, whose only
    header is [Content-Type: application/json] and whose body is the
    serialised request.  A transport error comes back with an empty body;
    otherwise what [ioutil.ReadAll] gives comes back as it is, so a failed
    read returns the bytes read so far together with its error. *)
Theorem SendRequest_posts_json (env : Env) (o : OmniSharpClient) (endpoint : string)
    (request : gmap string iface) (jsonData : bytes) (w : Trace) :
  client o = Some http.DefaultClient →
  json_Marshal env request = inr jsonData →
  url_Parse env (baseURL o +:+ endpoint) = None →
  ∃ req,
    (http.Method req = "POST" ∧
     http.URL req = baseURL o +:+ endpoint ∧
     http.Header req = {["Content-Type" := "application/json"]} ∧
     http.ReqBody req = jsonData) ∧
    round_trips (SendRequest env (Some o) endpoint request w).2 = round_trips w ++ [req] ∧
    (∀ msg, RoundTrip env w req = inl msg →
       SendRequest env (Some o) endpoint request w =
         (Returned ("", Some (Error FromDo msg)), w ++ [EvRoundTrip req])) ∧
    (∀ resp, RoundTrip env w req = inr resp →
       SendRequest env (Some o) endpoint request w =
         (Returned (http.content (http.Body resp),
                    Error FromReadAll <$> http.failure (http.Body resp)),
          w ++ [EvRoundTrip req; EvBodyClose])).
Proof.
  intros Hc Hm Hu. exists (json_post (baseURL o +:+ endpoint) jsonData).
  rewrite SendRequest_paths, Hm, Hu, Hc. cbn zeta.
  split; [by rewrite <- insert_empty|].
  split.
  { destruct (RoundTrip env w _); cbn [snd]; by rewrite round_trips_app. }
  split; intros r Hr; by rewrite Hr.
Qed.

(** The stub bridge answering one candidate. *)
Lemma SendRequest_posts_json_witness :
  ∃ req,
    (http.Method req = "POST" ∧
     http.URL req = "http://localhost:2000/autocomplete" ∧
     http.Header req = {["Content-Type" := "application/json"]} ∧
     http.ReqBody req = stub_query_json) ∧
    round_trips (SendRequest (stub_env (answering 200 stub_body))
                   (Some (NewOmniSharpClient "http://localhost:2000")) "/autocomplete"
                   (omnisharpRequest (stub_env (answering 200 stub_body)) stub_params)
                   []).2 = [req].
Proof.
  destruct (SendRequest_posts_json (stub_env (answering 200 stub_body))
              (NewOmniSharpClient "http://localhost:2000") "/autocomplete"
              (omnisharpRequest (stub_env (answering 200 stub_body)) stub_params)
              stub_query_json [] eq_refl eq_refl eq_refl)
    as (req & Hreq & Hone & _).
  exists req. exact (conj Hreq Hone).
Defined.

(** X2.  [SendRequest] never retries and never leaks a body: whatever its
    receiver and arguments, it leaves the trace as it was, or adds one round
    trip that failed, or adds one round trip that was answered followed by
    the closing of that response's body. *)
Theorem SendRequest_one_round_trip_at_most (env : Env) (o : option OmniSharpClient)
    (endpoint : string) (request : gmap string iface) (w : Trace) :
  (SendRequest env o endpoint request w).2 = w ∨
  (∃ req msg, RoundTrip env w req = inl msg ∧
     (SendRequest env o endpoint request w).2 = w ++ [EvRoundTrip req]) ∨
  (∃ req resp, RoundTrip env w req = inr resp ∧
     (SendRequest env o endpoint request w).2 = w ++ [EvRoundTrip req; EvBodyClose]).
Proof.
  rewrite SendRequest_paths.
  destruct (json_Marshal env request) as [msg|jsonData]; [by left|].
  destruct o as [o'|]; [|by left].
  destruct (url_Parse env _) as [msg|]; [by left|].
  destruct (client o') as [c|]; [|by left]. cbn zeta.
  destruct (RoundTrip env w _) as [msg|resp] eqn:Hrt; right; [left|right]; eauto.
Qed.

(** X3.  When [SendRequest] panics.  It panics exactly when the request
    serialises and either the receiver is nil, or the URL parses and the
    bridge has no HTTP client; the panic is a nil dereference and nothing
    has been sent.  So on a bridge built by [NewOmniSharpClient] it never
    panics, whatever the base URL, the endpoint and the request. *)
Theorem SendRequest_panics_iff (env : Env) (o : option OmniSharpClient)
    (endpoint : string) (request : gmap string iface) (w : Trace) :
  (∀ (p : Panic) (w' : Trace),
     SendRequest env o endpoint request w = (Panicked p, w') ↔
     p = NilDereference ∧ w' = w ∧
     (∃ jsonData, json_Marshal env request = inr jsonData) ∧
     (o = None ∨
      ∃ o', o = Some o' ∧ url_Parse env (baseURL o' +:+ endpoint) = None ∧
            client o' = None)) ∧
  (∀ (baseURL : string) (p : Panic),
     o = Some (NewOmniSharpClient baseURL) →
     (SendRequest env o endpoint request w).1 ≠ Panicked p).
Proof.
  assert (Hiff : ∀ (p : Panic) (w' : Trace),
     SendRequest env o endpoint request w = (Panicked p, w') ↔
     p = NilDereference ∧ w' = w ∧
     (∃ jsonData, json_Marshal env request = inr jsonData) ∧
     (o = None ∨
      ∃ o', o = Some o' ∧ url_Parse env (baseURL o' +:+ endpoint) = None ∧
            client o' = None)).
  { intros p w'. rewrite SendRequest_paths.
    destruct (json_Marshal env request) as [msg|jsonData].
    { split; [done|]. by intros (_ & _ & [jsonData ?] & _). }
    destruct o as [o'|].
    2:{ split.
        - intros H. simplify_eq. destruct p. split; [done|]. split; [done|].
          split; [by eexists|]. by left.
        - by intros (-> & -> & _). }
    destruct (url_Parse env (baseURL o' +:+ endpoint)) as [msg|] eqn:Hu.
    { split; [done|]. intros (_ & _ & _ & [?|(o2 & [= <-] & Hu' & _)]); [done|].
      by rewrite Hu in Hu'. }
    destruct (client o') as [c|] eqn:Hc.
    - cbn zeta. split.
      + by destruct (RoundTrip env w _).
      + intros (_ & _ & _ & [?|(o2 & [= <-] & _ & Hc')]); [done|].
        by rewrite Hc in Hc'.
    - split.
      + intros H. simplify_eq. destruct p. split; [done|]. split; [done|].
        split; [by eexists|]. right. by exists o'.
      + by intros (-> & -> & _). }
  split; [exact Hiff|].
  intros url p Ho Hp.
  pose proof (Hiff p (SendRequest env o endpoint request w).2) as Hi.
  destruct (SendRequest env o endpoint request w) as [r w'].
  cbn [fst snd] in Hp, Hi. subst r.
  destruct (proj1 Hi eq_refl) as (_ & _ & _ & [Hnil|(o' & Ho' & _ & Hc)]).
  - by rewrite Ho in Hnil.
  - rewrite Ho in Ho'. injection Ho' as <-. done.
Qed.

(** X4.  When the request does not serialise, [SendRequest] returns that
    error and does nothing else: nothing is sent, and the receiver is not
    read, so even a nil receiver does not panic. *)
Theorem SendRequest_marshal_failure (env : Env) (o : option OmniSharpClient)
    (endpoint : string) (request : gmap string iface) (w : Trace) (msg : string) :
  json_Marshal env request = inl msg →
  SendRequest env o endpoint request w =
    (Returned ("", Some (Error FromMarshal msg)), w).
Proof. intros Hm. by rewrite SendRequest_paths, Hm. Qed.

Lemma SendRequest_marshal_failure_witness :
  SendRequest refusing_env None "/autocomplete"
    (omnisharpRequest refusing_env stub_params) [] =
  (Returned ("", Some (Error FromMarshal "json: unsupported type")), []).
Proof.
  exact (SendRequest_marshal_failure refusing_env None "/autocomplete"
           (omnisharpRequest refusing_env stub_params) [] "json: unsupported type"
           eq_refl).
Defined.

(** X5.  When the URL made of the base URL and the endpoint does not parse,
    [SendRequest] returns the error of [http.NewRequest]: no round trip is
    made and the HTTP client is not touched, so a bridge without a client
    does not panic either. *)
Theorem SendRequest_bad_url (env : Env) (o : OmniSharpClient) (endpoint : string)
    (request : gmap string iface) (w : Trace) (jsonData : bytes) (msg : string) :
  json_Marshal env request = inr jsonData →
  url_Parse env (baseURL o +:+ endpoint) = Some msg →
  SendRequest env (Some o) endpoint request w =
    (Returned ("", Some (Error FromNewRequest msg)), w).
Proof. intros Hm Hu. by rewrite SendRequest_paths, Hm, Hu. Qed.

Lemma SendRequest_bad_url_witness :
  SendRequest (stub_env (answering 200 stub_body))
    (Some {| baseURL := broken_url; client := None |}) "/autocomplete"
    (omnisharpRequest (stub_env (answering 200 stub_body)) stub_params) [] =
  (Returned ("", Some (Error FromNewRequest "net/url: invalid control character in URL")),
   []).
Proof.
  refine (SendRequest_bad_url (stub_env (answering 200 stub_body))
            {| baseURL := broken_url; client := None |} "/autocomplete" _ []
            stub_query_json _ _ _); vm_compute; reflexivity.
Defined.

(** X6.  When the backend answers but reading its body fails, the
    completion handler returns the read error and no list: the bytes read
    before the failure are not decoded, and the body has been closed. *)
Theorem interrupted_body_fails_completion (env : Env) (s : Server)
    (params : protocol.CompletionParams) (w : Trace) (req : http.Request)
    (resp : http.Response) (msg : string) :
  backend_answers env s params w req (inr resp) →
  http.failure (http.Body resp) = Some msg →
  handleCompletion env s params w =
    (Returned (None, Some (Error FromReadAll msg)), w ++ [EvRoundTrip req; EvBodyClose]).
Proof.
  intros [Hs Hrt] Hread.
  destruct (handleCompletion_sends env s params w req Hs)
    as (o & jsonData & (Ho & Hc & Hm & Hu) & ->).
  rewrite handleCompletion_paths, SendRequest_paths, Ho, Hm, Hu, Hc. cbn zeta.
  unfold autocomplete_post in Hrt. rewrite Hrt.
  unfold ioutil.ReadAll. by rewrite Hread.
Qed.

(** A body that breaks off after what would have been a complete array. *)
Lemma interrupted_body_fails_completion_witness :
  handleCompletion (stub_env (breaking_off stub_body)) stub_server stub_params [] =
    (Returned (None, Some (Error FromReadAll "unexpected EOF")),
     [EvRoundTrip
        (autocomplete_post (NewOmniSharpClient "http://localhost:2000") stub_query_json);
      EvBodyClose]).
Proof.
  assert (Hback : backend_answers (stub_env (breaking_off stub_body)) stub_server
                    stub_params []
                    (autocomplete_post (NewOmniSharpClient "http://localhost:2000")
                       stub_query_json)
                    (inr {| http.StatusCode := 200;
                            http.Body := {| http.content := stub_body;
                                            http.failure := Some "unexpected EOF" |} |})).
  { split; vm_compute; reflexivity. }
  exact (interrupted_body_fails_completion _ _ _ _ _ _ "unexpected EOF" Hback eq_refl).
Defined.

(** X7.  Whenever [handleCompletion] returns, it returns either a list and
    no error, or an error and no list.  The list is never marked incomplete,
    holds one item per decoded candidate, and every item's kind is one of
    the five kinds [convertKind] can give.  The error is the one of
    serialising, building the request, the round trip, reading the body or
    decoding it, passed on as it is. *)
Theorem handleCompletion_list_or_error (env : Env) (s : Server)
    (params : protocol.CompletionParams) (w w' : Trace)
    (r : option protocol.CompletionList * option error) :
  handleCompletion env s params w = (Returned r, w') →
  (∃ (response : bytes) (cs : list Candidate.t),
     json_Unmarshal env response = (cs, None) ∧
     r = (Some {| protocol.IsIncomplete := false; protocol.Items := map item_of cs |},
          None) ∧
     Forall (λ item, protocol.Kind item ∈ converted_kinds) (map item_of cs)) ∨
  (∃ e : error, r = (None, Some e) ∧ origin e ∈ completion_origins).
Proof.
  rewrite handleCompletion_paths, SendRequest_paths. unfold completion_origins.
  assert (Hkinds : ∀ cs, Forall (λ item, protocol.Kind item ∈ converted_kinds)
                           (map item_of cs)).
  { intros cs. induction cs as [|c cs IH]; constructor; [|done]. simpl.
    unfold converted_kinds.
    destruct (convertKind_cases (Candidate.Kind c))
      as [[_ ->]|[[_ ->]|[[_ ->]|[[_ ->]|[_ ->]]]]]; set_solver. }
  destruct (json_Marshal env _) as [msg|jsonData].
  { intros [= <- <-]. right. eexists. split; [done|]. set_solver. }
  destruct (omnisharp s) as [o|]; [|done].
  destruct (url_Parse env _) as [msg|].
  { intros [= <- <-]. right. eexists. split; [done|]. set_solver. }
  destruct (client o) as [c|]; [|done]. cbn zeta.
  destruct (RoundTrip env w _) as [msg|resp].
  { intros [= <- <-]. right. eexists. split; [done|]. set_solver. }
  unfold ioutil.ReadAll.
  destruct (http.failure (http.Body resp)) as [msg|]; cbn.
  { intros [= <- <-]. right. eexists. split; [done|]. set_solver. }
  destruct (json_Unmarshal env (http.content (http.Body resp))) as [cs [msg|]] eqn:Hd.
  { intros [= <- <-]. right. eexists. split; [done|]. set_solver. }
  intros [= <- <-]. left. exists (http.content (http.Body resp)), cs. eauto.
Qed.

Lemma handleCompletion_list_or_error_witness :
  let r : option protocol.CompletionList * option error :=
    (Some {| protocol.IsIncomplete := false;
             protocol.Items := map item_of [stub_candidate] |}, None) in
  (∃ (response : bytes) (cs : list Candidate.t),
     json_Unmarshal (stub_env (answering 200 stub_body)) response = (cs, None) ∧
     r = (Some {| protocol.IsIncomplete := false; protocol.Items := map item_of cs |},
          None) ∧
     Forall (λ item, protocol.Kind item ∈ converted_kinds) (map item_of cs)) ∨
  (∃ e : error, r = (None, Some e) ∧ origin e ∈ completion_origins).
Proof.
  refine (handleCompletion_list_or_error (stub_env (answering 200 stub_body)) stub_server
            stub_params [] _ _ _).
  vm_compute. reflexivity.
Defined.

(** X8.  What [handle] does with its replier: for every request there is
    one of two shapes, the same for every replier.  Either [handle] comes
    back without invoking the replier, and then it has left no trace: the
    method is not one of the two it serves (nil), the parameters did not
    decode (that error), or the completion handler panicked before sending
    anything.  Or its last step is one call of the replier, whose outcome
    is [handle]'s own, and that call carries exactly one of a result and an
    error. *)
Theorem handle_replies_at_most_once (env : Env) (s : Server) (req : jsonrpc2.Request)
    (w : Trace) :
  ∃ d : Dispatched,
    (∀ (ctx : Context) (reply : Replier),
       handle env s ctx reply req w = dispatched_run d ctx reply) ∧
    match d with
    | Returns r w' =>
        w' = w ∧
        (r = Returned None ∨ (∃ msg, r = Returned (Some (Error FromParams msg))) ∨
         ∃ p, r = Panicked p)
    | Replies result err _ => result_is_nil result = bool_decide (err ≠ None)
    end.
Proof.
  destruct (decide (jsonrpc2.Method req = protocol.MethodInitialize)) as [Hi|Hi].
  { destruct (UnmarshalTo_InitializeParams env (jsonrpc2.Params req))
      as [msg|params] eqn:Hp.
    - exists (Returns (Returned (Some (Error FromParams msg))) w). split.
      + intros ctx reply. by rewrite (handle_initialize env s ctx reply req w Hi), Hp.
      + split; [done|]. right; left. by exists msg.
    - exists (Replies (ResultInitialize (handleInitialize s params).1)
                (handleInitialize s params).2 w). split.
      + intros ctx reply. by rewrite (handle_initialize env s ctx reply req w Hi), Hp.
      + done. }
  destruct (decide (jsonrpc2.Method req = protocol.MethodTextDocumentCompletion))
    as [Hc|Hc].
  2:{ exists (Returns (Returned None) w). split.
      - intros ctx reply. by rewrite handle_other.
      - split; [done|]. by left. }
  destruct (UnmarshalTo_CompletionParams env (jsonrpc2.Params req))
    as [msg|params] eqn:Hp.
  { exists (Returns (Returned (Some (Error FromParams msg))) w). split.
    - intros ctx reply. by rewrite (handle_completion env s ctx reply req w Hc), Hp.
    - split; [done|]. right; left. by exists msg. }
  destruct (handleCompletion env s params w) as [[r|p] w'] eqn:Hh.
  - exists (Replies (ResultCompletion r.1) r.2 w'). split.
    + intros ctx reply. by rewrite (handle_completion env s ctx reply req w Hc), Hp, Hh.
    + rewrite handleCompletion_paths in Hh.
      destruct (SendRequest env _ _ _ w) as [[[response [err|]]|q] w0]; [by simplify_eq| |done].
      destruct (json_Unmarshal env response) as [cs [msg|]]; by simplify_eq.
  - exists (Returns (Panicked p) w'). split.
    + intros ctx reply. by rewrite (handle_completion env s ctx reply req w Hc), Hp, Hh.
    + split; [|right; right; by exists p].
      rewrite handleCompletion_paths, SendRequest_paths in Hh.
      destruct (json_Marshal env _) as [msg|jsonData]; [done|].
      destruct (omnisharp s) as [o|]; [|by simplify_eq].
      destruct (url_Parse env _) as [msg|]; [done|].
      destruct (client o) as [c|]; [|by simplify_eq]. cbn zeta in Hh.
      destruct (RoundTrip env w _) as [msg|resp]; [done|].
      unfold ioutil.ReadAll in Hh.
      destruct (http.failure (http.Body resp)) as [msg|]; cbn in Hh; [done|].
      by destruct (json_Unmarshal env (http.content (http.Body resp))) as [cs [msg|]].
Qed.

(** X9.  A request of one of the two served methods whose parameters do not
    decode is not answered through the replier: [handle] returns the
    decoding error to the connection, whatever the replier is, and nothing
    is sent to the backend. *)
Theorem handle_malformed_params (env : Env) (s : Server) (ctx : Context)
    (reply : Replier) (req : jsonrpc2.Request) (w : Trace) (msg : string) :
  (jsonrpc2.Method req = protocol.MethodInitialize ∧
   UnmarshalTo_InitializeParams env (jsonrpc2.Params req) = inl msg) ∨
  (jsonrpc2.Method req = protocol.MethodTextDocumentCompletion ∧
   UnmarshalTo_CompletionParams env (jsonrpc2.Params req) = inl msg) →
  handle env s ctx reply req w = (Returned (Some (Error FromParams msg)), w).
Proof.
  intros [[Hm Hp]|[Hm Hp]].
  - by rewrite (handle_initialize env s ctx reply req w Hm), Hp.
  - by rewrite (handle_completion env s ctx reply req w Hm), Hp.
Qed.

Lemma handle_malformed_params_witness :
  handle (stub_env unreachable) stub_server context_Background
    (conn_replier (stub_env unreachable) garbled_request) garbled_request [] =
  (Returned (Some (Error FromParams "json: invalid JSON text")), []).
Proof.
  apply (handle_malformed_params (stub_env unreachable) stub_server context_Background
           (conn_replier (stub_env unreachable) garbled_request) garbled_request []
           "json: invalid JSON text").
  right. split; vm_compute; reflexivity.
Defined.

(** X10.  The loop of [handleCompletion] never indexes out of range: run
    with Go's bounds check on the slice made with [len(omnisharpResponse)]
    zero items, it does not panic and overwrites every slot, in order.  In
    general the checked loop started at index [i] succeeds exactly when there
    is nothing to store or the last index, [i + len - 1], is inside the
    slice, and then it gives what the unchecked loop gives. *)
Theorem fill_items_in_bounds (cs : list Candidate.t) :
  fill_items_checked 0 cs (replicate (length cs) protocol.CompletionItem_zero) =
    Some (map item_of cs) ∧
  ∀ (i : nat) (items : list protocol.CompletionItem),
    fill_items_checked i cs items =
      if decide (cs = [] ∨ i + length cs ≤ length items)
      then Some (fill_items i cs items) else None.
Proof.
  assert (Hgen : ∀ (i : nat) (items : list protocol.CompletionItem),
            fill_items_checked i cs items =
              if decide (cs = [] ∨ i + length cs ≤ length items)
              then Some (fill_items i cs items) else None).
  { induction cs as [|c rest IH]; intros i items.
    - cbn [fill_items_checked fill_items]. case_decide as Hn; [done|].
      destruct Hn. by left.
    - cbn [fill_items_checked fill_items length].
      destruct (decide (i < length items)) as [Hi|Hi].
      + rewrite IH, length_insert.
        destruct (decide (rest = [] ∨ S i + length rest ≤ length items)) as [H1|H1];
          destruct (decide (c :: rest = [] ∨ i + S (length rest) ≤ length items))
            as [H2|H2]; try done.
        * destruct H2. right. destruct H1 as [->|H1]; simpl; lia.
        * destruct H1. destruct H2 as [H2|H2]; [done|]. right. lia.
      + case_decide as H; [|done]. destruct H as [H|H]; [done|]. lia. }
  split; [|exact Hgen].
  rewrite Hgen, length_replicate, fill_items_map.
  case_decide as Hn; [done|]. destruct Hn. right. lia.
Qed.

(** X11.  A completion request whose parameters decode, on a server whose
    backend answers with a body that decodes to the candidates [cs], ends in
    one call of the replier, after the body was closed, with the completion
    list of [cs] as the result and a nil error; what the replier returns is
    what [handle] returns. *)
Theorem completion_is_answered_with_list (env : Env) (s : Server) (ctx : Context)
    (reply : Replier) (req : jsonrpc2.Request) (params : protocol.CompletionParams)
    (w : Trace) (post : http.Request) (resp : http.Response) (cs : list Candidate.t) :
  jsonrpc2.Method req = protocol.MethodTextDocumentCompletion →
  UnmarshalTo_CompletionParams env (jsonrpc2.Params req) = inr params →
  backend_answers env s params w post (inr resp) →
  answers_candidates env resp cs →
  handle env s ctx reply req w =
    reply ctx
      (ResultCompletion
         (Some {| protocol.IsIncomplete := false; protocol.Items := map item_of cs |}))
      None (w ++ [EvRoundTrip post; EvBodyClose]).
Proof.
  intros Hm Hp [Hs Hrt] [Hread Hdec].
  destruct (handleCompletion_sends env s params w post Hs)
    as (o & jsonData & (Ho & Hc & Hj & Hu) & ->).
  rewrite (handle_completion env s ctx reply req w Hm), Hp.
  rewrite handleCompletion_paths, SendRequest_paths, Ho, Hj, Hu, Hc. cbn zeta.
  unfold autocomplete_post in Hrt. rewrite Hrt.
  unfold ioutil.ReadAll. rewrite Hread. cbn. by rewrite Hdec.
Qed.

(** The completion request of the stub, answered over the connection. *)
Lemma completion_is_answered_with_list_witness :
  let env := stub_env (answering 200 stub_body) in
  let post :=
    autocomplete_post (NewOmniSharpClient "http://localhost:2000") stub_query_json in
  handle env stub_server context_Background (conn_replier env stub_request)
    stub_request [] =
  (Returned None,
   [EvRoundTrip post; EvBodyClose;
    EvWrite {| jsonrpc2.RespID := 1;
               jsonrpc2.RespResult :=
                 ResultCompletion
                   (Some {| protocol.IsIncomplete := false;
                            protocol.Items := map item_of [stub_candidate] |});
               jsonrpc2.RespErr := None |}]).
Proof.
  intros env post.
  assert (Hback : backend_answers env stub_server stub_params [] post
                    (inr {| http.StatusCode := 200;
                            http.Body := {| http.content := stub_body;
                                            http.failure := None |} |})).
  { split; vm_compute; reflexivity. }
  assert (Hans : answers_candidates env
                   {| http.StatusCode := 200;
                      http.Body := {| http.content := stub_body; http.failure := None |} |}
                   [stub_candidate]).
  { split; vm_compute; reflexivity. }
  assert (Hp : UnmarshalTo_CompletionParams env (jsonrpc2.Params stub_request) =
               inr stub_params).
  { vm_compute. reflexivity. }
  rewrite (completion_is_answered_with_list env stub_server context_Background
             (conn_replier env stub_request) stub_request stub_params [] post _
             [stub_candidate] eq_refl Hp Hback Hans).
  reflexivity.
Defined.

(** ** [StdioStream] *)

(** Closing a file never opens one, and leaves the file it was given not
    open. *)
Lemma os_Close_not_open (sys : os.Sys) (f : option nat) (t : gmap nat os.FileState)
    (h : nat) :
  t !! h ≠ Some os.Open ∨ f = Some h →
  (os.Close sys f t).2 !! h ≠ Some os.Open.
Proof.
  intros Hh. unfold os.Close.
  destruct f as [g|]; cbn [snd]; [|by destruct Hh].
  destruct (t !! g) as [[]|] eqn:Hg; cbn [snd].
  - destruct (decide (g = h)) as [->|Hne].
    + by rewrite lookup_insert_eq.
    + rewrite lookup_insert_ne by done. destruct Hh as [Hh|[= ?]]; done.
  - destruct Hh as [Hh|[= ->]]; [done|]. by rewrite Hg.
  - destruct Hh as [Hh|[= ->]]; [done|]. by rewrite Hg.
Qed.

Lemma StdioStream_Close_in_not_open (sys : os.Sys) (s : StdioStream)
    (t : gmap nat os.FileState) (i : nat) :
  in_ s = Some i →
  (StdioStream_Close sys s t).2 !! i ≠ Some os.Open.
Proof.
  intros Hi. unfold StdioStream_Close.
  pose proof (os_Close_not_open sys (in_ s) t i (or_intror Hi)) as H1.
  destruct (os.Close sys (in_ s) t) as [[err|] t']; [done|].
  apply os_Close_not_open. by left.
Qed.

(** X12.  [Close] stops at the first error: when the input cannot be closed
    (it is closed already, or the system call fails) [Close] returns that
    error without closing the output, which stays open and writable. *)
Theorem StdioStream_Close_leaves_out_open (sys : os.Sys) (s : StdioStream)
    (t : gmap nat os.FileState) (i o : nat) :
  in_ s = Some i →
  out s = Some o →
  i ≠ o →
  t !! o = Some os.Open →
  t !! i ≠ Some os.Open ∨ os.close_result sys i ≠ None →
  ∃ err t',
    StdioStream_Close sys s t = (Some err, t') ∧
    t' !! o = Some os.Open ∧
    ∀ p, StdioStream_Write sys s p t' = os.write_result sys o p.
Proof.
  intros Hi Ho Hne Hopen Hfail.
  unfold StdioStream_Close, StdioStream_Write, os.Close, os.Write. rewrite Hi, Ho.
  destruct (t !! i) as [[]|] eqn:Hti.
  - destruct Hfail as [Hfail|Hfail]; [done|].
    destruct (os.close_result sys i) as [err|]; [|done].
    exists err, (<[i := os.Closed]> t).
    rewrite lookup_insert_ne by done. by rewrite Hopen.
  - exists (os.ErrClosed "close"), t. by rewrite Hopen.
  - exists (os.ErrClosed "close"), t. by rewrite Hopen.
Qed.

Lemma StdioStream_Close_leaves_out_open_witness :
  ∃ err t',
    StdioStream_Close jammed_sys NewStdioStream fresh_files = (Some err, t') ∧
    t' !! os.Stdout = Some os.Open ∧
    ∀ p, StdioStream_Write jammed_sys NewStdioStream p t' =
         os.write_result jammed_sys os.Stdout p.
Proof.
  apply (StdioStream_Close_leaves_out_open jammed_sys NewStdioStream fresh_files
           os.Stdin os.Stdout eq_refl eq_refl).
  - discriminate.
  - reflexivity.
  - right. discriminate.
Defined.

(** X13.  After [Close], whatever it returned, the stream is spent for
    reading and for closing: a second [Close] returns an error and changes
    no file, and [Read] returns no bytes and an error. *)
Theorem StdioStream_Close_twice (sys : os.Sys) (s : StdioStream)
    (t : gmap nat os.FileState) :
  let t' := (StdioStream_Close sys s t).2 in
  StdioStream_Close sys s t' =
    (Some (match in_ s with None => os.ErrInvalid | Some _ => os.ErrClosed "close" end),
     t') ∧
  ∀ n, StdioStream_Read sys s n t' =
    ("", Some (match in_ s with None => os.ErrInvalid | Some _ => os.ErrClosed "read" end)).
Proof.
  intros t'.
  destruct (in_ s) as [i|] eqn:Hi.
  - pose proof (StdioStream_Close_in_not_open sys s t i Hi) as Hn. fold t' in Hn.
    unfold StdioStream_Close, StdioStream_Read, os.Close, os.Read. rewrite Hi.
    by destruct (t' !! i) as [[]|].
  - unfold StdioStream_Close, StdioStream_Read, os.Close, os.Read. by rewrite Hi.
Qed.

(** X14.  On a stream over two different open files, when closing the input
    succeeds, [Close] closes both files and returns what closing the output
    reports; the output is closed even when that is an error.  Afterwards
    [Read] and [Write] fail without reading or writing a byte. *)
Theorem StdioStream_Close_closes_both (sys : os.Sys) (s : StdioStream)
    (t : gmap nat os.FileState) (i o : nat) :
  in_ s = Some i →
  out s = Some o →
  i ≠ o →
  t !! i = Some os.Open →
  t !! o = Some os.Open →
  os.close_result sys i = None →
  let t' := <[o := os.Closed]> (<[i := os.Closed]> t) in
  StdioStream_Close sys s t = (os.close_result sys o, t') ∧
  (∀ n, StdioStream_Read sys s n t' = ("", Some (os.ErrClosed "read"))) ∧
  (∀ p, StdioStream_Write sys s p t' = (0, Some (os.ErrClosed "write"))).
Proof.
  intros Hi Ho Hne Hti Hto Hclose t'.
  unfold StdioStream_Close, StdioStream_Read, StdioStream_Write, os.Close, os.Read,
    os.Write.
  rewrite Hi, Ho, Hti, Hclose.
  rewrite lookup_insert_ne by done. rewrite Hto.
  subst t'. rewrite lookup_insert_eq.
  rewrite lookup_insert_ne by done. rewrite lookup_insert_eq. done.
Qed.

(** The stream of [NewStdioStream] on the files of a fresh process. *)
Lemma StdioStream_Close_closes_both_witness :
  StdioStream_Close calm_sys NewStdioStream fresh_files =
    (None, <[os.Stdout := os.Closed]> (<[os.Stdin := os.Closed]> fresh_files)).
Proof.
  refine (proj1 (StdioStream_Close_closes_both calm_sys NewStdioStream fresh_files
                   os.Stdin os.Stdout eq_refl eq_refl _ eq_refl eq_refl eq_refl)).
  discriminate.
Defined.
